(** * pg-boss Manager (src/manager.js): a shallow embedding and its properties

    The Manager is the coordinator of a database-backed job queue.  It is
    written in JavaScript over promises; the embedding below follows the
    source function by function:

    - JavaScript values, with the conversions the Manager relies on
      ([typeof], truthiness, [||], [===], [> 0], [*], string conversion);
    - a heap of objects, because [publish] and [subscribe] write into the
      options object their caller handed over;
    - the collaborators of the Manager (SQL executor, id factory, event
      listeners, Attorney) as an interface, [Host];
    - a promise chain as a state transformer returning [Resolved] or
      [Rejected]; a timer callback or a [then] continuation that the event
      loop runs later is a separate transition.

    Numbers are the integers and NaN: fractional and infinite doubles are
    outside the model.  Objects are plain records of own properties with the
    default conversions of [Object.prototype]. *)

From Stdlib Require Import ZArith.
From stdpp Require Import gmap strings list fin_maps pretty.

Open Scope Z_scope.
Open Scope string_scope.

(** ** JavaScript values *)

Inductive num :=
  | NaN
  | Int (z : Z).

Definition loc := nat.

Inductive value :=
  | VUndef
  | VNull
  | VBool (b : bool)
  | VNum (n : num)
  | VStr (s : string)
  | VFun (source : string)
  | VObj (l : loc).

Abbreviation obj := (gmap string value).
Abbreviation heap := (gmap loc (gmap string value)).

Definition typeof (v : value) : string :=
  match v with
  | VUndef => "undefined"
  | VNull => "object"
  | VBool _ => "boolean"
  | VNum _ => "number"
  | VStr _ => "string"
  | VFun _ => "function"
  | VObj _ => "object"
  end.

(** ToBoolean. *)
Definition truthy (v : value) : bool :=
  match v with
  | VUndef | VNull => false
  | VBool b => b
  | VNum NaN => false
  | VNum (Int z) => negb (Z.eqb z 0)
  | VStr s => negb (String.eqb s "")
  | VFun _ | VObj _ => true
  end.

(** [a || b] *)
Definition or_else (a b : value) : value := if truthy a then a else b.

(** ToString, as used by [+] on a string and by template literals. *)
Definition ToString (v : value) : string :=
  match v with
  | VUndef => "undefined"
  | VNull => "null"
  | VBool true => "true"
  | VBool false => "false"
  | VNum NaN => "NaN"
  | VNum (Int z) => pretty z
  | VStr s => s
  | VFun source => source
  | VObj _ => "[object Object]"
  end.

(** [a === b] *)
Definition strict_equal (a b : value) : bool :=
  match a, b with
  | VUndef, VUndef | VNull, VNull => true
  | VBool x, VBool y => Bool.eqb x y
  | VNum (Int x), VNum (Int y) => Z.eqb x y
  | VStr x, VStr y => String.eqb x y
  | VFun x, VFun y => String.eqb x y
  | VObj x, VObj y => Nat.eqb x y
  | _, _ => false
  end.

(** [args[i]]: reading past the end of an array gives [undefined]. *)
Definition arg (i : nat) (args : list value) : value := nth i args VUndef.

(** ** Objects on the heap *)

(** [o.k] for an object reference. *)
Definition get (h : heap) (l : loc) (k : string) : value :=
  default VUndef (h !! l ≫= fun o => o !! k).

(** [k in o] *)
Definition has (h : heap) (l : loc) (k : string) : bool :=
  match h !! l ≫= fun o => o !! k with
  | Some _ => true
  | None => false
  end.

(** [o.k = v] *)
Definition put (h : heap) (l : loc) (k : string) (v : value) : heap :=
  <[l := <[k := v]> (default ∅ (h !! l))]> h.

(** A fresh object literal. *)
Definition alloc (o : obj) (h : heap) : loc * heap :=
  let l := fresh (dom h) in (l, <[l := o]> h).

(** ** Numeric conversions *)

(** ToNumber.  How a string reads as a number (StringNumericLiteral) is
    left to the parameter [parse]. *)
Definition ToNumber (parse : string → num) (v : value) : num :=
  match v with
  | VUndef => NaN
  | VNull => Int 0
  | VBool b => Int (if b then 1 else 0)
  | VNum n => n
  | VStr s => parse s
  | VFun _ | VObj _ => NaN
  end.

(** [k < v] for a number [k]: false when [v] is not a number. *)
Definition less_than (parse : string → num) (k : Z) (v : value) : bool :=
  match ToNumber parse v with
  | Int n => Z.ltb k n
  | NaN => false
  end.

(** [v > 0] *)
Definition positive (parse : string → num) (v : value) : bool :=
  less_than parse 0 v.

(** [v * k] for a number [k]. *)
Definition times (parse : string → num) (v : value) (k : Z) : value :=
  match ToNumber parse v with
  | Int n => VNum (Int (n * k))
  | NaN => VNum NaN
  end.

(** ** Errors, promises, and the executor's vocabulary *)

(** What a promise is rejected with: an [AssertionError] raised by
    [assert], the [TypeError] of reading a property of [undefined] or
    [null], or whatever a collaborator threw. *)
Inductive error :=
  | AssertionError (message : string)
  | TypeError
  | Thrown (payload : value).

Inductive outcome (A : Type) :=
  | Resolved (a : A)
  | Rejected (e : error).
Arguments Resolved {A} a.
Arguments Rejected {A} e.

(** Modelled from the spec: the prepared statements of plans (src has no
    plans.js) are texts keyed by operation and schema, opaque to the
    Manager. *)
Inductive plan :=
  | plan_fetchNextJob
  | plan_expireJob
  | plan_insertJob
  | plan_completeJob
  | plan_cancelJob.

Record command := Command { operation : plan; schema_name : string }.

(** The second argument of [executeSql]: absent, a bare value, or an array. *)
Inductive params :=
  | NoParams
  | OneParam (v : value)
  | Params (vs : list value).

(** [{ rowCount, rows }]; each row is an object the driver has just built. *)
Record sqlResult := SqlResult { rowCount : value; rows : list (gmap string value) }.

Inductive event :=
  | ev_expired (count : value)
  | ev_error (e : error).

Inductive uuid_version := v1 | v4.

(** ** Workers *)

(** The three closures [subscribe] hands to a Worker. *)
Inductive fetcher := onFetch (name : value).
Inductive responder := onJob (callback : value).
Inductive error_handler := onError.

Record workerConfig := WorkerConfig {
  wc_name : value;
  wc_fetcher : fetcher;
  wc_responder : responder;
  wc_error : error_handler;
  wc_interval : value
}.

(** Modelled from the spec: the Worker class (src has no worker.js).  A
    worker keeps the configuration it was constructed with; [start] begins
    its polling loop and [stop] sets its stop flag. *)
Record worker := Worker {
  w_config : workerConfig;
  w_started : bool;
  w_stopped : bool
}.

Definition Worker_new (c : workerConfig) : worker := Worker c false false.
Definition Worker_start (w : worker) : worker := Worker (w_config w) true (w_stopped w).
Definition Worker_stop (w : worker) : worker := Worker (w_config w) (w_started w) true.

(** ** The collaborators *)

(** Everything the Manager calls but does not define. *)
Class Host := {
  (** the database, and whatever else the executor and id factory see *)
  World : Type;
  (** [db.executeSql(command, params)]: a rejection or a result *)
  executeSql : command → params → heap → World → (error + sqlResult) * World;
  (** [uuid[version]()] *)
  uuid : uuid_version → World → value * World;
  (** how a string converts to a number *)
  StringToNumber : string → num;
  (** the listeners attached to the Manager: [Some e] when delivering the
      event throws [e] (a listener throws, or an 'error' event finds no
      listener), [None] when [emit] returns *)
  deliver : event → option error;
  (** [Attorney.applyNewJobCheckInterval(options)] (src has no attorney.js) *)
  applyNewJobCheckInterval : value → heap → (error + value) * heap
}.

(** ** The Manager *)

Record configuration := Config {
  cfg_schema : string;
  cfg_expireCheckInterval : value;
  cfg_newJobCheckInterval : value;
  cfg_uuid : uuid_version
}.

(** The fields the constructor sets once. *)
Record Manager := {
  config : configuration;
  nextJobCommand : command;
  expireJobCommand : command;
  insertJobCommand : command;
  completeJobCommand : command;
  cancelJobCommand : command
}.

Definition constructor (cfg : configuration) : Manager :=
  {| config := cfg;
     nextJobCommand := Command plan_fetchNextJob (cfg_schema cfg);
     expireJobCommand := Command plan_expireJob (cfg_schema cfg);
     insertJobCommand := Command plan_insertJob (cfg_schema cfg);
     completeJobCommand := Command plan_completeJob (cfg_schema cfg);
     cancelJobCommand := Command plan_cancelJob (cfg_schema cfg) |}.

Section Embedding.
Context {H : Host}.

(** The mutable fields of the Manager ([workers], [stopped],
    [expireTimer]) and the world around it. *)
Record state := State {
  objects : heap;                         (* the JavaScript heap *)
  world : World;                          (* behind [this.db] *)
  sql_log : list (command * params);      (* every executeSql call, in order *)
  workers : list nat;                     (* this.workers: indices into [pool] *)
  stopped : bool;                         (* this.stopped *)
  expireTimer : option nat;               (* this.expireTimer *)
  pool : list worker;                     (* every Worker constructed so far *)
  armed : gmap nat value;                 (* timers set and neither fired nor cleared, with their delay *)
  next_timer : nat;                       (* the next timer handle *)
  emitted : list event                    (* every event emitted, in order *)
}.

Definition initial (w : World) (h : heap) : state :=
  State h w [] [] false None [] ∅ 0%nat [].

Definition set_objects (h : heap) (s : state) : state :=
  State h (world s) (sql_log s) (workers s) (stopped s) (expireTimer s)
        (pool s) (armed s) (next_timer s) (emitted s).

(** [this.db.executeSql(command, params)] *)
Definition exec (c : command) (p : params) (s : state) : (error + sqlResult) * state :=
  let '(r, w) := executeSql c p (objects s) (world s) in
  (r, State (objects s) w (sql_log s ++ [(c, p)]) (workers s) (stopped s)
            (expireTimer s) (pool s) (armed s) (next_timer s) (emitted s)).

(** [uuid[this.config.uuid]()] *)
Definition new_id (m : Manager) (s : state) : value * state :=
  let '(id, w) := uuid (cfg_uuid (config m)) (world s) in
  (id, State (objects s) w (sql_log s) (workers s) (stopped s)
             (expireTimer s) (pool s) (armed s) (next_timer s) (emitted s)).

(** [this.emit(event)]: the event is recorded; the listeners may throw. *)
Definition emit (e : event) (s : state) : option error * state :=
  (deliver e,
   State (objects s) (world s) (sql_log s) (workers s) (stopped s)
         (expireTimer s) (pool s) (armed s) (next_timer s) (emitted s ++ [e])).

End Embedding.

(** ** publish *)

Section Publish.
Context {H : Host}.

(** [publish.getArgs]: unpack the positional or the single-object form.
    The options object is created here when the caller gave none.  After
    [options = options || {}] the test [typeof options == 'object'] holds
    exactly when [options] is an object reference. *)
Definition publish_getArgs (args : list value) (h : heap)
  : (error + (value * value * loc)) * heap :=
  let unpacked : error + (value * value * value) :=
    if String.eqb (typeof (arg 0 args)) "string" then
      let name := arg 0 args in
      let data := arg 1 args in
      if String.eqb (typeof data) "function"
      then inl (AssertionError "publish() cannot accept a function as the payload.  Did you intend to use subscribe()?")
      else inr (name, data, arg 2 args)
    else if String.eqb (typeof (arg 0 args)) "object" then
      if negb (Nat.eqb (length args) 1)
      then inl (AssertionError "publish object API only accepts 1 argument")
      else
        match arg 0 args with
        | VObj job => inr (get h job "name", get h job "data", get h job "options")
        | _ => inl (AssertionError "boss requires all jobs to have a name")
        end
    else inr (VUndef, VUndef, VUndef) in
  match unpacked with
  | inl e => (inl e, h)
  | inr (name, data, options) =>
      let '(options, h) :=
        if truthy options then (options, h)
        else let '(l, h') := alloc ∅ h in (VObj l, h') in
      if negb (truthy name)
      then (inl (AssertionError "boss requires all jobs to have a name"), h)
      else
        match options with
        | VObj l => (inr (name, data, l), h)
        | _ => (inl (AssertionError "options should be an object"), h)
        end
  end.

(** The [startIn] an insert is given. *)
Definition derive_startIn (h : heap) (options : loc) : value :=
  let startIn := get h options "startIn" in
  if positive StringToNumber startIn then VStr ("" ++ ToString startIn)
  else if String.eqb (typeof startIn) "string" then startIn
  else VStr "0".

(** The [singletonSeconds] an insert is given. *)
Definition derive_singletonSeconds (h : heap) (options : loc) : value :=
  if positive StringToNumber (get h options "singletonSeconds")
  then get h options "singletonSeconds"
  else if positive StringToNumber (get h options "singletonMinutes")
  then times StringToNumber (get h options "singletonMinutes") 60
  else if positive StringToNumber (get h options "singletonHours")
  then times StringToNumber
         (times StringToNumber (get h options "singletonHours") 60) 60
  else if positive StringToNumber (get h options "singletonDays")
  then times StringToNumber
         (times StringToNumber
            (times StringToNumber (get h options "singletonDays") 60) 60) 24
  else VNull.

(** The nine parameters of the insert plan. *)
Definition insert_values (h : heap) (id name data : value) (options : loc)
    (singletonOffset : value) : list value :=
  [ id; name;
    or_else (get h options "retryLimit") (VNum (Int 0));
    derive_startIn h options;
    or_else (get h options "expireIn") (VStr "15 minutes");
    data;
    or_else (get h options "singletonKey") VNull;
    derive_singletonSeconds h options;
    or_else singletonOffset (VNum (Int 0)) ].

(** One round of [insertJob] up to the executor's answer: derive the
    values, draw an id, run the insert plan. *)
Definition insert_attempt (m : Manager) (name data : value) (options : loc)
    (singletonOffset : value) (s : state)
  : value * (error + sqlResult) * state :=
  let '(id, s1) := new_id m s in
  let values := insert_values (objects s) id name data options singletonOffset in
  let '(r, s2) := exec (insertJobCommand m) (Params values) s1 in
  (id, r, s2).

(** [options.startIn = singletonSeconds; options.singletonNextSlot = false] *)
Definition prepare_next_slot (options : loc) (singletonSeconds : value) (s : state) : state :=
  set_objects
    (put (put (objects s) options "startIn" singletonSeconds)
         options "singletonNextSlot" (VBool false)) s.

(** [publish.insertJob].  The source recurses on its own; [fuel] bounds the
    depth of the recursion and [None] means the bound was reached. *)
Fixpoint insertJob (fuel : nat) (m : Manager) (name data : value) (options : loc)
    (singletonOffset : value) (s : state) : option (outcome value * state) :=
  match fuel with
  | O => None
  | S fuel' =>
      let singletonSeconds := derive_singletonSeconds (objects s) options in
      match insert_attempt m name data options singletonOffset s with
      | (_, inl e, s') => Some (Rejected e, s')
      | (id, inr result, s') =>
          if strict_equal (rowCount result) (VNum (Int 1)) then Some (Resolved id, s')
          else if negb (truthy (get (objects s') options "singletonNextSlot"))
          then Some (Resolved VNull, s')
          else
            let singletonOffset := singletonSeconds in
            insertJob fuel' m name data options singletonOffset
                      (prepare_next_slot options singletonSeconds s')
      end
  end.

Definition publish (fuel : nat) (m : Manager) (args : list value) (s : state)
  : option (outcome value * state) :=
  match publish_getArgs args (objects s) with
  | (inl e, h) => Some (Rejected e, set_objects h s)
  | (inr (name, data, options), h) =>
      insertJob fuel m name data options VUndef (set_objects h s)
  end.

End Publish.

(** ** fetch, complete, cancel *)

Section Operations.
Context {H : Host}.

(** [fetch(name)]: [None] is [null], [Some job] the claimed row. *)
Definition fetch (m : Manager) (name : value) (s : state)
  : outcome (option (gmap string value)) * state :=
  match exec (nextJobCommand m) (OneParam name) s with
  | (inl e, s') => (Rejected e, s')
  | (inr result, s') =>
      if Nat.eqb (length (rows result)) 0 then (Resolved None, s')
      else
        match rows result with
        | job :: _ => (Resolved (Some (<["name" := name]> job)), s')
        | [] => (Resolved None, s')
        end
  end.

(** [complete(id)] *)
Definition complete (m : Manager) (id : value) (s : state) : outcome value * state :=
  match exec (completeJobCommand m) (Params [id]) s with
  | (inl e, s') => (Rejected e, s')
  | (inr result, s') =>
      if strict_equal (rowCount result) (VNum (Int 1)) then (Resolved id, s')
      else (Rejected (AssertionError ("Job " ++ ToString id ++ " could not be completed.")), s')
  end.

(** [cancel(id)] *)
Definition cancel (m : Manager) (id : value) (s : state) : outcome value * state :=
  match exec (cancelJobCommand m) (Params [id]) s with
  | (inl e, s') => (Rejected e, s')
  | (inr result, s') =>
      if strict_equal (rowCount result) (VNum (Int 1)) then (Resolved id, s')
      else (Rejected (AssertionError ("Job " ++ ToString id ++ " could not be cancelled.")), s')
  end.


End Operations.

(** ** monitor and stop *)

Section Lifecycle.
Context {H : Host}.

(** [setTimeout(check, delay)] *)
Definition setTimeout (delay : value) (s : state) : nat * state :=
  (next_timer s,
   State (objects s) (world s) (sql_log s) (workers s) (stopped s) (expireTimer s)
         (pool s) (<[next_timer s := delay]> (armed s)) (S (next_timer s)) (emitted s)).

(** [clearTimeout(handle)] *)
Definition clearTimeout (handle : nat) (s : state) : state :=
  State (objects s) (world s) (sql_log s) (workers s) (stopped s) (expireTimer s)
        (pool s) (delete handle (armed s)) (next_timer s) (emitted s).

Definition set_expireTimer (handle : nat) (s : state) : state :=
  State (objects s) (world s) (sql_log s) (workers s) (stopped s) (Some handle)
        (pool s) (armed s) (next_timer s) (emitted s).

Definition set_stopped (s : state) : state :=
  State (objects s) (world s) (sql_log s) (workers s) true (expireTimer s)
        (pool s) (armed s) (next_timer s) (emitted s).

(** The continuation of [expire]: runs when the sweep's [executeSql]
    settles with [r].  [Some e] is a rejection, [None] a fulfilment. *)
Definition expire_settled (r : error + sqlResult) (s : state) : option error * state :=
  match r with
  | inl e => (Some e, s)
  | inr result =>
      if truthy (rowCount result) then emit (ev_expired (rowCount result)) s
      else (None, s)
  end.

(** [monitor.init] *)
Definition init (m : Manager) (s : state) : state :=
  if stopped s then s
  else
    let '(handle, s') := setTimeout (cfg_expireCheckInterval (config m)) s in
    set_expireTimer handle s'.

(** [expire().then(init)], from the moment the first sweep settles; the
    outcome is the promise [monitor()] returned. *)
Definition monitor_settled (m : Manager) (r : error + sqlResult) (s : state)
  : outcome unit * state :=
  match expire_settled r s with
  | (Some e, s') => (Rejected e, s')
  | (None, s') => (Resolved tt, init m s')
  end.

(** The timer [handle] goes off: it is no longer armed, and [check] issues
    a sweep. *)
Definition timer_fires (handle : nat) (s : state) : state := clearTimeout handle s.

(** [expire().catch(error => self.emit('error', error)).then(init)], from
    the moment the sweep settles.  When [emit] itself throws the chain stays
    rejected and [init] is skipped. *)
Definition check_settled (m : Manager) (r : error + sqlResult) (s : state) : state :=
  match expire_settled r s with
  | (Some e, s1) =>
      match emit (ev_error e) s1 with
      | (Some _, s2) => s2
      | (None, s2) => init m s2
      end
  | (None, s1) => init m s1
  end.

(** [expire()], run to the end of its promise chain. *)
Definition expire (m : Manager) (s : state) : option error * state :=
  let '(r, s1) := exec (expireJobCommand m) NoParams s in
  expire_settled r s1.

(** [monitor()], run to the end of its promise chain: [expire().then(init)]. *)
Definition monitor (m : Manager) (s : state) : outcome unit * state :=
  match expire m s with
  | (Some e, s') => (Rejected e, s')
  | (None, s') => (Resolved tt, init m s')
  end.

(** One tick, run to the end of its chain: the timer goes off and [check]
    runs [expire().catch(error => self.emit('error', error)).then(init)]. *)
Definition check (m : Manager) (handle : nat) (s : state) : state :=
  match expire m (timer_fires handle s) with
  | (Some e, s1) =>
      match emit (ev_error e) s1 with
      | (Some _, s2) => s2
      | (None, s2) => init m s2
      end
  | (None, s1) => init m s1
  end.

(** [close()]: stop every registered worker, then empty the registry. *)
Definition close (s : state) : state :=
  State (objects s) (world s) (sql_log s) [] (stopped s) (expireTimer s)
        (foldl (fun p i => alter Worker_stop i p) (pool s) (workers s))
        (armed s) (next_timer s) (emitted s).

(** The continuation of [stop]: runs once the promise of [close] is
    fulfilled. *)
Definition stop_settled (s : state) : state :=
  let s' := set_stopped s in
  match expireTimer s' with
  | Some handle => clearTimeout handle s'
  | None => s'
  end.

(** [stop()], run to the end of its promise chain. *)
Definition stop (s : state) : state := stop_settled (close s).

(** What the event loop can run between two observations of the Manager:
    the settling of a [monitor()] call's first sweep, a timer going off,
    the settling of a tick's sweep, and the two halves of [stop()]. *)
Inductive transition :=
  | t_monitor_settled (r : error + sqlResult)
  | t_timer_fires (handle : nat)
  | t_check_settled (r : error + sqlResult)
  | t_close
  | t_stop_settled.

Definition step (m : Manager) (t : transition) (s : state) : state :=
  match t with
  | t_monitor_settled r => snd (monitor_settled m r s)
  | t_timer_fires handle => timer_fires handle s
  | t_check_settled r => check_settled m r s
  | t_close => close s
  | t_stop_settled => stop_settled s
  end.

Definition run (m : Manager) (ts : list transition) (s : state) : state :=
  foldl (fun s t => step m t s) s ts.

End Lifecycle.

(** ** subscribe *)

Section Subscribe.
Context {H : Host}.

(** [v.k] for any value: a [TypeError] on [undefined] and [null], and
    [undefined] on the other primitives, which carry none of the option
    names. *)
Definition get_value (h : heap) (v : value) (k : string) : error + value :=
  match v with
  | VObj l => inr (get h l k)
  | VUndef | VNull => inl TypeError
  | _ => inr VUndef
  end.

(** [options || {}] *)
Definition or_fresh_object (options : value) (h : heap) : value * heap :=
  if truthy options then (options, h)
  else let '(l, h') := alloc ∅ h in (VObj l, h').

(** The end of [subscribe.getArgs], once [options] is an object:
    [options.teamSize = options.teamSize || 1], then the polling interval,
    from Attorney when the options name one and from the configuration
    otherwise. *)
Definition subscribe_defaults (m : Manager) (l : loc) (callback : value) (h : heap)
  : (error + (value * value)) * heap :=
  let h := put h l "teamSize" (or_else (get h l "teamSize") (VNum (Int 1))) in
  if has h l "newJobCheckInterval" || has h l "newJobCheckIntervalSeconds" then
    match applyNewJobCheckInterval (VObj l) h with
    | (inl e, h') => (inl e, h')
    | (inr options', h') => (inr (options', callback), h')
    end
  else
    (inr (VObj l, callback),
     put h l "newJobCheckInterval" (cfg_newJobCheckInterval (config m))).

(** [subscribe.getArgs] *)
Definition subscribe_getArgs (m : Manager) (name : value) (args : list value) (h : heap)
  : (error + (value * value)) * heap :=
  if negb (truthy name)
  then (inl (AssertionError "boss requires all jobs to have a name"), h)
  else
    let '(options, callback, h) :=
      if Nat.eqb (length args) 1 then
        let '(l, h') := alloc ∅ h in (VObj l, arg 0 args, h')
      else if Nat.eqb (length args) 2 then
        let '(options, h') := or_fresh_object (arg 0 args) h in
        (options, arg 1 args, h')
      else (VUndef, VUndef, h) in
    if negb (String.eqb (typeof callback) "function")
    then (inl (AssertionError "expected a callback function"), h)
    else if truthy options && negb (String.eqb (typeof options) "object")
    then (inl (AssertionError "expected config to be an object"), h)
    else
      let '(options, h) := or_fresh_object options h in
      match options with
      | VObj l => subscribe_defaults m l callback h
      | _ => (inl TypeError, h)
      end.

(** [new Worker(workerConfig); worker.start(); self.workers.push(worker)] *)
Definition add_worker (c : workerConfig) (s : state) : state :=
  State (objects s) (world s) (sql_log s) (workers s ++ [length (pool s)])
        (stopped s) (expireTimer s)
        (pool s ++ [Worker_start (Worker_new c)])
        (armed s) (next_timer s) (emitted s).

(** [for (let w = 0; w < options.teamSize; w++) ...], from [w] on.  [fuel]
    bounds the number of iterations and [None] means the bound was reached
    with the loop still running. *)
Fixpoint team_loop (fuel : nat) (w : Z) (teamSize : value) (c : workerConfig)
    (s : state) : option state :=
  if less_than StringToNumber w teamSize then
    match fuel with
    | O => None
    | S fuel' => team_loop fuel' (w + 1) teamSize c (add_worker c s)
    end
  else Some s.

(** [subscribe.register] *)
Definition register (fuel : nat) (m : Manager) (name options callback : value)
    (s : state) : option (outcome unit * state) :=
  match get_value (objects s) options "newJobCheckInterval" with
  | inl e => Some (Rejected e, s)
  | inr interval =>
      let workerConfig :=
        {| wc_name := name;
           wc_fetcher := onFetch name;
           wc_responder := onJob callback;
           wc_error := onError;
           wc_interval := interval |} in
      match get_value (objects s) options "teamSize" with
      | inl e => Some (Rejected e, s)
      | inr teamSize =>
          match team_loop fuel 0 teamSize workerConfig s with
          | Some s' => Some (Resolved tt, s')
          | None => None
          end
      end
  end.

Definition subscribe (fuel : nat) (m : Manager) (name : value) (args : list value)
    (s : state) : option (outcome unit * state) :=
  match subscribe_getArgs m name args (objects s) with
  | (inl e, h) => Some (Rejected e, set_objects h s)
  | (inr (options, callback), h) =>
      register fuel m name options callback (set_objects h s)
  end.

End Subscribe.

(** ** Two hosts to run the Manager on *)

(** Decimal integer literals; every other string reads as NaN here, the
    empty string as 0. *)
Fixpoint decimal_digits (s : string) (acc : Z) : option Z :=
  match s with
  | EmptyString => Some acc
  | String c s' =>
      let n := Z.of_N (Ascii.N_of_ascii c) in
      if Z.leb 48 n && Z.leb n 57 then decimal_digits s' (10 * acc + (n - 48))
      else None
  end.

Definition parse_decimal (s : string) : num :=
  match decimal_digits s 0 with
  | Some z => Int z
  | None => NaN
  end.

(** Modelled from the spec: Attorney.applyNewJobCheckInterval (src has no
    attorney.js) accepts [newJobCheckInterval] in milliseconds or
    [newJobCheckIntervalSeconds] in seconds and writes the millisecond value
    back into the options.  The allowed ranges are not given; this one
    insists on a positive value. *)
Definition attorney (options : value) (h : heap) : (error + value) * heap :=
  match options with
  | VObj l =>
      let interval :=
        if has h l "newJobCheckIntervalSeconds"
        then times parse_decimal (get h l "newJobCheckIntervalSeconds") 1000
        else get h l "newJobCheckInterval" in
      if positive parse_decimal interval
      then (inr options, put h l "newJobCheckInterval" interval)
      else (inl (AssertionError "newJobCheckInterval out of range"), h)
  | _ => (inl TypeError, h)
  end.

(** A scripted executor: each [executeSql] call consumes the next canned
    answer (zero rows once the script is exhausted); ids are numbered. *)
Definition scripted : Host :=
  {| World := list (error + sqlResult) * nat;
     executeSql := fun _ _ _ w =>
       match fst w with
       | r :: rest => (r, (rest, snd w))
       | [] => (inr (SqlResult (VNum (Int 0)) []), w)
       end;
     uuid := fun _ w => (VStr ("job-" ++ pretty (snd w)), (fst w, S (snd w)));
     StringToNumber := parse_decimal;
     deliver := fun _ => None;
     applyNewJobCheckInterval := attorney |}.

Inductive job_state := created | active | completed | expired | cancelled | retry.

(** Modelled from the spec: the completeJob and cancelJob plans (src has no
    plans.js).  The store keeps the state of each job by id; a job leaves
    [active] for [completed] or [cancelled], both terminal, and the plan
    reports one row when it moved the job and none otherwise.  The other
    plans are not modelled and report no row. *)
Definition store_executeSql (c : command) (p : params) (h : heap)
    (w : gmap string job_state) : (error + sqlResult) * gmap string job_state :=
  match operation c, p with
  | plan_completeJob, Params [id] =>
      match w !! ToString id with
      | Some active => (inr (SqlResult (VNum (Int 1)) []), <[ToString id := completed]> w)
      | _ => (inr (SqlResult (VNum (Int 0)) []), w)
      end
  | plan_cancelJob, Params [id] =>
      match w !! ToString id with
      | Some active => (inr (SqlResult (VNum (Int 1)) []), <[ToString id := cancelled]> w)
      | _ => (inr (SqlResult (VNum (Int 0)) []), w)
      end
  | _, _ => (inr (SqlResult (VNum (Int 0)) []), w)
  end.

Definition job_store : Host :=
  {| World := gmap string job_state;
     executeSql := store_executeSql;
     uuid := fun _ w => (VStr ("job-" ++ pretty (size w)), w);
     StringToNumber := parse_decimal;
     deliver := fun _ => None;
     applyNewJobCheckInterval := attorney |}.

(** A configuration and a Manager to run examples with. *)
Definition example_config : configuration :=
  Config "pgboss" (VNum (Int 60000)) (VNum (Int 1000)) v4.

Definition boss : Manager := constructor example_config.

(** ** The singleton window as the spec words it *)





(** [needle] occurs in [text]. *)
Definition includes (needle text : string) : Prop :=
  ∃ before after, text = before ++ needle ++ after.



(** Whether the caller of [subscribe] gave a polling interval. *)
Definition requested_interval (args : list value) (h : heap) : bool :=
  match args with
  | [VObj l; _] => has h l "newJobCheckInterval" || has h l "newJobCheckIntervalSeconds"
  | _ => false
  end.

(** ** Example inputs *)

(** One object on the heap at 0: the options of a throttled publish. *)
Definition throttled_options (nextSlot : bool) : gmap string value :=
  {[ "singletonKey" := VStr "k";
     "singletonSeconds" := VNum (Int 60);
     "singletonNextSlot" := VBool nextSlot ]}.

Definition one_row : error + sqlResult := inr (SqlResult (VNum (Int 1)) []).
Definition no_row : error + sqlResult := inr (SqlResult (VNum (Int 0)) []).
Definition connection_lost : error := Thrown (VStr "connection lost").

Definition scripted_state (script : list (error + sqlResult)) (h : heap) : @state scripted :=
  @initial scripted (script, 0%nat) h.

(** The heap of a throttled publish: the options at 0, and at 1 the job
    object [{ name: 'tick', options }] of the single-object form. *)
Definition throttled_heap (nextSlot : bool) : heap :=
  {[ 0%nat := throttled_options nextSlot;
     1%nat := {[ "name" := VStr "tick"; "options" := VObj 0%nat ]} ]}.

(** [publish('tick', null, options)] *)
Definition tick_args : list value := [VStr "tick"; VNull; VObj 0%nat].


(** A job object whose payload is a function, at 0:
    [{ name: 'job', data: function () {} }]. *)
Definition callable : value := VFun "function () {}".

Definition callable_job_heap : heap :=
  {[ 0%nat := {[ "name" := VStr "job"; "data" := callable ]} ]}.

(** A row the fetch plan might return: it echoes a name of its own. *)
Definition echoed_row : gmap string value :=
  {[ "id" := VStr "job-3"; "name" := VStr "echoed" ]}.

(** A Manager whose first sweep is refused by the database. *)
Definition lost_connection_state : @state scripted :=
  scripted_state [inl connection_lost] ∅.

(** A Manager after [monitor()] went through: timer 0 is armed, and the
    database will refuse the next sweep. *)
Definition armed_state : @state scripted :=
  snd (monitor (H := scripted) boss (scripted_state [no_row; inl connection_lost] ∅)).

(** [subscribe('work', { teamSize: 3 }, job => {})], the options at 0. *)
Definition team_heap : heap := {[ 0%nat := {[ "teamSize" := VNum (Int 3) ]} ]}.
Definition team_args : list value := [VObj 0%nat; VFun "job => {}"].

(** Every armed timer is the one the Manager holds in [expireTimer]: the
    state of a Manager whose monitor loop was started once. *)
Definition one_timer {H : Host} (s : state) : Prop :=
  ∀ handle, is_Some (armed s !! handle) → expireTimer s = Some handle.

(** ** Vocabulary of the further properties *)

(** What [publish] takes for options: nothing (any falsy value) or an
    object. *)
Definition options_ok (v : value) : Prop :=
  truthy v = false ∨ ∃ l, v = VObj l.

(** The fields of the Manager that belong to its workers, its timer and its
    events are the same in both states. *)
Definition same_lifecycle {H : Host} (s s' : state) : Prop :=
  workers s' = workers s ∧ stopped s' = stopped s
  ∧ expireTimer s' = expireTimer s ∧ pool s' = pool s
  ∧ armed s' = armed s ∧ next_timer s' = next_timer s
  ∧ emitted s' = emitted s.

(** The four rejections of [publish.getArgs]. *)
Definition publish_assertions : list error :=
  [ AssertionError "publish() cannot accept a function as the payload.  Did you intend to use subscribe()?";
    AssertionError "publish object API only accepts 1 argument";
    AssertionError "boss requires all jobs to have a name";
    AssertionError "options should be an object" ].

(** The outcome [out] and final state [s'] of a publish are those of an
    insert: an executor call on the insert plan, with nine parameters led
    by an id, whose answer decides what publish settles with. *)
Definition decided_by_insert {H : Host} (m : Manager) (out : outcome value)
    (s' : state) : Prop :=
  ∃ s0 id rest r,
    length rest = 8%nat
    ∧ exec (insertJobCommand m) (Params (id :: rest)) s0 = (r, s')
    ∧ out = match r with
            | inl e => Rejected e
            | inr result =>
                if strict_equal (rowCount result) (VNum (Int 1))
                then Resolved id else Resolved VNull
            end.

(** Every armed timer was set with the configured expireCheckInterval. *)
Definition timers_at_interval {H : Host} (m : Manager) (s : state) : Prop :=
  ∀ handle delay, armed s !! handle = Some delay →
    delay = cfg_expireCheckInterval (config m).

(** No timer is armed in [s'] that was not armed, with the same delay, in
    [s]. *)
Definition no_new_timer {H : Host} (s s' : state) : Prop :=
  ∀ handle delay, armed s' !! handle = Some delay → armed s !! handle = Some delay.


(** The three rejections of [subscribe.getArgs]. *)
Definition subscribe_assertions : list error :=
  [ AssertionError "boss requires all jobs to have a name";
    AssertionError "expected a callback function";
    AssertionError "expected config to be an object" ].

(** The completion callback [subscribe.register] hands to the subscriber
    with each job: [() => self.complete(job.id)]. *)
Definition completion_thunk {H : Host} (m : Manager) (job : gmap string value)
    (s : state) : outcome value * state :=
  complete m (default VUndef (job !! "id")) s.

(** ** More example inputs *)

Definition listener_failed : error := Thrown (VStr "listener failed").

(** The scripted host with no 'error' listener attached: emitting an
    'error' event throws the error itself. *)
Definition deaf : Host :=
  {| World := list (error + sqlResult) * nat;
     executeSql := @executeSql scripted;
     uuid := @uuid scripted;
     StringToNumber := parse_decimal;
     deliver := fun e => match e with ev_error err => Some err | _ => None end;
     applyNewJobCheckInterval := attorney |}.

(** The scripted host with an 'expired' listener that throws. *)
Definition fragile : Host :=
  {| World := list (error + sqlResult) * nat;
     executeSql := @executeSql scripted;
     uuid := @uuid scripted;
     StringToNumber := parse_decimal;
     deliver := fun e => match e with ev_expired _ => Some listener_failed | _ => None end;
     applyNewJobCheckInterval := attorney |}.

Definition two_expired : error + sqlResult := inr (SqlResult (VNum (Int 2)) []).

(** A Manager after [monitor()] went through, with a sweep that will find
    two expired jobs coming next. *)
Definition sweeping_state : @state scripted :=
  snd (monitor (H := scripted) boss (scripted_state [no_row; two_expired] ∅)).

(** The same on the host with the throwing 'expired' listener. *)
Definition fragile_state : @state fragile :=
  snd (monitor (H := fragile) boss (@initial fragile ([no_row; two_expired], 0%nat) ∅)).

(** A Manager with timer 0 armed on the host without an 'error' listener;
    the database will refuse the next sweep. *)
Definition deaf_state : @state deaf :=
  snd (monitor (H := deaf) boss (@initial deaf ([no_row; inl connection_lost], 0%nat) ∅)).

(** [subscribe('work', { teamSize: -1 }, job => {})], the options at 0. *)
Definition no_team_heap : heap := {[ 0%nat := {[ "teamSize" := VNum (Int (-1)) ]} ]}.

(** The state a call leaves, or [s] when it ran out of fuel. *)
Definition state_after {H : Host} {A : Type} (r : option (A * state)) (s : state) : state :=
  match r with
  | Some (_, s') => s'
  | None => s
  end.

(** * Properties *)

(** ** Values and the heap *)

Lemma strict_equal_one (v : value) :
  strict_equal v (VNum (Int 1)) = true ↔ v = VNum (Int 1).
Proof.
  split.
  - destruct v as [| |b|[|z]|s|f|l]; simpl; try discriminate.
    intros Hz. apply Z.eqb_eq in Hz. by subst.
  - by intros ->.
Qed.

Lemma strict_equal_not_one (v : value) :
  strict_equal v (VNum (Int 1)) = false ↔ v ≠ VNum (Int 1).
Proof.
  rewrite <- strict_equal_one. by destruct (strict_equal _ _).
Qed.

Lemma get_put_eq (h : heap) (l : loc) (k : string) (v : value) :
  get (put h l k v) l k = v.
Proof.
  unfold get, put. rewrite lookup_insert_eq. simpl. by rewrite lookup_insert_eq.
Qed.

Lemma get_put_ne (h : heap) (l : loc) (k k' : string) (v : value) :
  k ≠ k' → get (put h l k v) l k' = get h l k'.
Proof.
  intros Hk. unfold get, put. rewrite lookup_insert_eq. simpl.
  rewrite lookup_insert_ne by done.
  by destruct (h !! l).
Qed.

Lemma get_put_other (h : heap) (l l' : loc) (k k' : string) (v : value) :
  l ≠ l' → get (put h l k v) l' k' = get h l' k'.
Proof.
  intros Hl. unfold get, put. by rewrite lookup_insert_ne.
Qed.

Lemma has_put_ne (h : heap) (l : loc) (k k' : string) (v : value) :
  k ≠ k' → has (put h l k v) l k' = has h l k'.
Proof.
  intros Hk. unfold has, put. rewrite lookup_insert_eq. simpl.
  rewrite lookup_insert_ne by done.
  by destruct (h !! l).
Qed.

Lemma alloc_fresh (o : gmap string value) (h : heap) :
  h !! fst (alloc o h) = None.
Proof.
  unfold alloc. simpl. apply not_elem_of_dom, is_fresh.
Qed.

Lemma times_times (parse : string → num) (v : value) (a b : Z) :
  times parse (times parse v a) b = times parse v (a * b).
Proof.
  unfold times. destruct (ToNumber parse v) as [|n]; simpl; [done|].
  by rewrite Z.mul_assoc.
Qed.

(** ** The singleton window *)

Section SingletonWindow.
Context {H : Host}.


End SingletonWindow.



(** ** publish *)

Section PublishProperties.
Context {H : Host}.

Lemma insert_attempt_spec (m : Manager) (name data : value) (options : loc)
    (offset id : value) (r : error + sqlResult) (s s' : state) :
  insert_attempt m name data options offset s = (id, r, s') →
  id = fst (new_id m s)
  ∧ objects s' = objects s
  ∧ sql_log s' = (sql_log s
      ++ [(insertJobCommand m,
           Params (insert_values (objects s) id name data options offset))])%list.
Proof.
  unfold insert_attempt, new_id, exec. simpl.
  destruct (uuid _ _) as [id0 w0]. simpl.
  destruct (executeSql _ _ _ _) as [r0 w1].
  intros [= <- <- <-]. done.
Qed.

Lemma derive_singletonSeconds_prepared (h : heap) (options : loc) (v b : value) :
  derive_singletonSeconds
    (put (put h options "startIn" v) options "singletonNextSlot" b) options
  = derive_singletonSeconds h options.
Proof.
  unfold derive_singletonSeconds.
  by rewrite !get_put_ne by done.
Qed.

Lemma positive_times (v : value) (k : Z) :
  positive StringToNumber v = true → 0 < k →
  ∃ n, times StringToNumber v k = VNum (Int n) ∧ 0 < n.
Proof.
  unfold positive, less_than, times.
  destruct (ToNumber StringToNumber v) as [|n]; [done|].
  intros Hn%Z.ltb_lt Hk. exists (n * k). split; [done|]. lia.
Qed.

(** A derived singletonSeconds that is a number is a positive one. *)
Lemma derive_singletonSeconds_number (h : heap) (options : loc) (n : Z) :
  derive_singletonSeconds h options = VNum (Int n) → 0 < n.
Proof.
  unfold derive_singletonSeconds.
  destruct (positive StringToNumber (get h options "singletonSeconds")) eqn:Hs.
  { intros E. rewrite E in Hs. by apply Z.ltb_lt in Hs. }
  destruct (positive StringToNumber (get h options "singletonMinutes")) eqn:Hm.
  { destruct (positive_times _ 60 Hm) as (k & -> & Hk); [lia|]. by intros [= <-]. }
  destruct (positive StringToNumber (get h options "singletonHours")) eqn:Hh.
  { rewrite times_times.
    destruct (positive_times _ (60 * 60) Hh) as (k & -> & Hk); [lia|]. by intros [= <-]. }
  destruct (positive StringToNumber (get h options "singletonDays")) eqn:Hd; [|done].
  rewrite !times_times.
  destruct (positive_times _ (60 * (60 * 24)) Hd) as (k & -> & Hk); [lia|]. by intros [= <-].
Qed.

(** The second round of [insertJob] ends the recursion whatever the
    executor answers. *)
Lemma insertJob_next_slot (fuel : nat) (m : Manager) (name data : value)
    (options : loc) (s s1 s3 : state) (id id2 : value) (result : sqlResult)
    (r2 : error + sqlResult) :
  insert_attempt m name data options VUndef s = (id, inr result, s1) →
  rowCount result ≠ VNum (Int 1) →
  truthy (get (objects s1) options "singletonNextSlot") = true →
  insert_attempt m name data options (derive_singletonSeconds (objects s) options)
    (prepare_next_slot options (derive_singletonSeconds (objects s) options) s1)
    = (id2, r2, s3) →
  insertJob (S (S fuel)) m name data options VUndef s
  = Some (match r2 with
          | inl e => Rejected e
          | inr result2 =>
              if strict_equal (rowCount result2) (VNum (Int 1))
              then Resolved id2 else Resolved VNull
          end, s3).
Proof.
  intros Hfirst Hrows Hslot Hsecond.
  cbn [insertJob]. rewrite Hfirst.
  apply strict_equal_not_one in Hrows. rewrite Hrows, Hslot. cbn [negb].
  rewrite Hsecond.
  destruct r2 as [e|result2]; [done|].
  destruct (strict_equal (rowCount result2) (VNum (Int 1))); [done|].
  apply insert_attempt_spec in Hsecond as (_ & -> & _).
  unfold prepare_next_slot. simpl. by rewrite get_put_eq.
Qed.

(** Two rounds are all [insertJob] ever takes: with fuel for two, publish
    always comes to an outcome. *)
Lemma publish_terminates (fuel : nat) (m : Manager) (args : list value) (s : state) :
  ∃ out s', publish (S (S fuel)) m args s = Some (out, s').
Proof.
  unfold publish.
  destruct (publish_getArgs args (objects s)) as [[e|[[name data] options]] h];
    [by eexists _, _|].
  destruct (insert_attempt m name data options VUndef (set_objects h s))
    as [[id [e|result]] s1] eqn:Hfirst.
  { cbn [insertJob]. rewrite Hfirst. by eexists _, _. }
  destruct (strict_equal (rowCount result) (VNum (Int 1))) eqn:Hrows.
  { cbn [insertJob]. rewrite Hfirst, Hrows. by eexists _, _. }
  destruct (truthy (get (objects s1) options "singletonNextSlot")) eqn:Hslot.
  - destruct (insert_attempt m name data options
                (derive_singletonSeconds (objects (set_objects h s)) options)
                (prepare_next_slot options
                   (derive_singletonSeconds (objects (set_objects h s)) options) s1))
      as [[id2 r2] s3] eqn:Hsecond.
    apply strict_equal_not_one in Hrows.
    rewrite (insertJob_next_slot _ _ _ _ _ _ _ _ _ _ _ _ Hfirst Hrows Hslot Hsecond).
    by eexists _, _.
  - cbn [insertJob]. rewrite Hfirst, Hrows, Hslot. by eexists _, _.
Qed.

(** C1: when the insert reports one row, publish resolves with the id drawn
    for that insert; when it reports anything else and the options do not
    ask for singletonNextSlot, publish resolves with null. *)
Theorem publish_resolves_id_or_null (fuel : nat) (m : Manager) (args : list value)
    (s s' : state) (name data id : value) (options : loc) (h : heap)
    (result : sqlResult) :
  publish_getArgs args (objects s) = (inr (name, data, options), h) →
  insert_attempt m name data options VUndef (set_objects h s) = (id, inr result, s') →
  id = fst (new_id m (set_objects h s))
  ∧ (rowCount result = VNum (Int 1) →
      publish (S fuel) m args s = Some (Resolved id, s'))
  ∧ (rowCount result ≠ VNum (Int 1) →
      truthy (get (objects s') options "singletonNextSlot") = false →
      publish (S fuel) m args s = Some (Resolved VNull, s')).
Proof.
  intros Hargs Hattempt.
  split; [by apply insert_attempt_spec in Hattempt as (? & _)|].
  unfold publish. rewrite Hargs. cbn [insertJob]. rewrite Hattempt.
  split.
  - intros Hone%strict_equal_one. by rewrite Hone.
  - intros Hnot%strict_equal_not_one Hslot. by rewrite Hnot, Hslot.
Qed.

(** C2: when the insert is suppressed and the options ask for
    singletonNextSlot, publish runs the insert exactly once more, on options
    whose startIn is the derived singletonSeconds and whose singletonNextSlot
    is false, with singletonOffset the derived singletonSeconds itself (not
    twice that); the outcome of that second insert is final: its id when it
    reports one row, null when it is suppressed again. *)
Theorem publish_next_slot_retries_once (fuel : nat) (m : Manager)
    (args : list value) (s s1 s3 : state) (name data id id2 : value)
    (options : loc) (h : heap) (result : sqlResult) (r2 : error + sqlResult) :
  publish_getArgs args (objects s) = (inr (name, data, options), h) →
  insert_attempt m name data options VUndef (set_objects h s) = (id, inr result, s1) →
  rowCount result ≠ VNum (Int 1) →
  truthy (get (objects s1) options "singletonNextSlot") = true →
  let singletonSeconds := derive_singletonSeconds h options in
  let s2 := prepare_next_slot options singletonSeconds s1 in
  let retry := insert_values (objects s2) id2 name data options singletonSeconds in
  insert_attempt m name data options singletonSeconds s2 = (id2, r2, s3) →
  get (objects s2) options "startIn" = singletonSeconds
  ∧ get (objects s2) options "singletonNextSlot" = VBool false
  ∧ sql_log s3 = (sql_log s
      ++ [ (insertJobCommand m, Params (insert_values h id name data options VUndef));
           (insertJobCommand m, Params retry) ])%list
  ∧ retry !! 7%nat = Some singletonSeconds
  ∧ retry !! 8%nat = Some (or_else singletonSeconds (VNum (Int 0)))
  ∧ (∀ n, singletonSeconds = VNum (Int n) →
       retry !! 3%nat = Some (VStr (pretty n))
       ∧ retry !! 8%nat = Some (VNum (Int n)))
  ∧ publish (S (S fuel)) m args s
    = Some (match r2 with
            | inl e => Rejected e
            | inr result2 =>
                if strict_equal (rowCount result2) (VNum (Int 1))
                then Resolved id2 else Resolved VNull
            end, s3).
Proof.
  intros Hargs Hfirst Hrows Hslot ss s2 retry Hsecond.
  pose proof (insert_attempt_spec _ _ _ _ _ _ _ _ _ Hfirst) as (_ & Hobj1 & Hlog1).
  pose proof (insert_attempt_spec _ _ _ _ _ _ _ _ _ Hsecond) as (_ & Hobj3 & Hlog3).
  simpl in Hobj1, Hlog1.
  assert (Hstart : get (objects s2) options "startIn" = ss).
  { unfold s2, prepare_next_slot. simpl. rewrite get_put_ne by done. apply get_put_eq. }
  assert (Hderive : derive_singletonSeconds (objects s2) options = ss).
  { unfold s2, prepare_next_slot. simpl. rewrite derive_singletonSeconds_prepared.
    by rewrite Hobj1. }
  split; [done|]. split.
  { unfold s2, prepare_next_slot. simpl. apply get_put_eq. }
  split.
  { rewrite Hlog3. unfold s2, prepare_next_slot at 1. simpl. rewrite Hlog1.
    by rewrite <- app_assoc. }
  split.
  { change (Some (derive_singletonSeconds (objects s2) options) = Some ss).
    by rewrite Hderive. }
  split; [done|].
  split.
  { intros n Hn. pose proof Hn as Hpos. unfold ss in Hpos.
    apply derive_singletonSeconds_number in Hpos.
    split.
    - change (Some (derive_startIn (objects s2) options) = Some (VStr (pretty n))).
      unfold derive_startIn. rewrite Hstart, Hn.
      unfold positive, less_than. simpl.
      by assert (Z.ltb 0 n = true) as -> by by apply Z.ltb_lt.
    - change (Some (or_else ss (VNum (Int 0))) = Some (VNum (Int n))).
      rewrite Hn. unfold or_else. simpl.
      by assert (Z.eqb n 0 = false) as -> by by apply Z.eqb_neq; lia. }
  unfold publish. rewrite Hargs.
  eapply insertJob_next_slot; eauto.
Qed.

(** When the options are the caller's own object, [getArgs] leaves the
    heap as it is. *)
Lemma publish_getArgs_heap (args : list value) (h0 h : heap)
    (name data : value) (options : loc) :
  publish_getArgs args h0 = (inr (name, data, options), h) →
  is_Some (h0 !! options) → h = h0.
Proof.
  unfold publish_getArgs.
  match goal with
  | |- context [match ?u with inl _ => _ | inr _ => _ end] =>
      destruct u as [e|[[n d] o]]
  end; [done|].
  destruct (truthy o).
  - destruct (negb (truthy n)); [done|].
    destruct o; try done. by intros [= _ _ _ <-].
  - destruct (alloc ∅ h0) as [l h'] eqn:Halloc.
    destruct (negb (truthy n)); [done|].
    intros [= _ _ <- _] [o' Ho'].
    pose proof (alloc_fresh ∅ h0) as Hfresh. rewrite Halloc in Hfresh.
    simpl in Hfresh. congruence.
Qed.

(** C10: when the first insert is suppressed and the caller's options ask
    for singletonNextSlot, the call leaves the caller's options object
    changed in place: its startIn is the derived singletonSeconds and its
    singletonNextSlot is false; nothing else on the heap changes. *)
Theorem publish_mutates_caller_options (fuel : nat) (m : Manager)
    (args : list value) (s s1 : state) (name data id : value)
    (options : loc) (o : gmap string value) (h : heap) (result : sqlResult) :
  publish_getArgs args (objects s) = (inr (name, data, options), h) →
  objects s !! options = Some o →
  insert_attempt m name data options VUndef (set_objects h s) = (id, inr result, s1) →
  rowCount result ≠ VNum (Int 1) →
  truthy (get (objects s1) options "singletonNextSlot") = true →
  ∃ out s',
    publish (S (S fuel)) m args s = Some (out, s')
    ∧ get (objects s') options "startIn" = derive_singletonSeconds (objects s) options
    ∧ get (objects s') options "singletonNextSlot" = VBool false
    ∧ objects s'
      = <[options := <["singletonNextSlot" := VBool false]>
                       (<["startIn" := derive_singletonSeconds (objects s) options]> o)]>
          (objects s).
Proof.
  intros Hargs Ho Hfirst Hrows Hslot.
  pose proof (publish_getArgs_heap _ _ _ _ _ _ Hargs (mk_is_Some _ _ Ho)) as ->.
  pose proof (insert_attempt_spec _ _ _ _ _ _ _ _ _ Hfirst) as (_ & Hobj1 & _).
  simpl in Hobj1.
  set (ss := derive_singletonSeconds (objects s) options).
  destruct (insert_attempt m name data options ss (prepare_next_slot options ss s1))
    as [[id2 r2] s3] eqn:Hsecond.
  pose proof (insert_attempt_spec _ _ _ _ _ _ _ _ _ Hsecond) as (_ & Hobj3 & _).
  eexists _, s3. split.
  { unfold publish. rewrite Hargs. eapply insertJob_next_slot; eauto. }
  rewrite Hobj3. unfold prepare_next_slot. simpl. rewrite Hobj1.
  split; [by rewrite get_put_ne, get_put_eq|].
  split; [by rewrite get_put_eq|].
  unfold put. rewrite lookup_insert_eq, Ho. simpl.
  by rewrite insert_insert_eq.
Qed.

End PublishProperties.

Lemma publish_resolves_id_or_null_witness :
  fst <$> publish (H := scripted) 1 boss tick_args
            (scripted_state [one_row] (throttled_heap false))
    = Some (Resolved (VStr "job-0"))
  ∧ fst <$> publish (H := scripted) 1 boss tick_args
              (scripted_state [no_row] (throttled_heap false))
    = Some (Resolved VNull).
Proof.
  split.
  - edestruct (publish_resolves_id_or_null (H := scripted) 0 boss tick_args
                 (scripted_state [one_row] (throttled_heap false)))
      as (_ & Hone & _); [reflexivity | reflexivity |].
    rewrite Hone; reflexivity.
  - edestruct (publish_resolves_id_or_null (H := scripted) 0 boss tick_args
                 (scripted_state [no_row] (throttled_heap false)))
      as (_ & _ & Hnull); [reflexivity | reflexivity |].
    rewrite Hnull; [reflexivity | discriminate | reflexivity].
Defined.

Lemma publish_next_slot_retries_once_witness :
  fst <$> publish (H := scripted) 2 boss tick_args
            (scripted_state [no_row; one_row] (throttled_heap true))
    = Some (Resolved (VStr "job-1"))
  ∧ fst <$> publish (H := scripted) 2 boss tick_args
              (scripted_state [no_row; no_row] (throttled_heap true))
    = Some (Resolved VNull).
Proof.
  pose (window := derive_singletonSeconds (H := scripted) (throttled_heap true) 0%nat).
  pose (first := fun script =>
          insert_attempt (H := scripted) boss (VStr "tick") VNull 0%nat VUndef
            (set_objects (throttled_heap true)
               (scripted_state script (throttled_heap true)))).
  pose (second := fun script =>
          insert_attempt (H := scripted) boss (VStr "tick") VNull 0%nat window
            (prepare_next_slot 0%nat window (snd (first script)))).
  split.
  - destruct (publish_next_slot_retries_once (H := scripted) 0 boss tick_args
                (scripted_state [no_row; one_row] (throttled_heap true))
                (snd (first [no_row; one_row])) (snd (second [no_row; one_row]))
                (VStr "tick") VNull (VStr "job-0") (VStr "job-1") 0%nat
                (throttled_heap true) (SqlResult (VNum (Int 0)) []) one_row
                eq_refl eq_refl ltac:(discriminate) eq_refl eq_refl)
      as (_ & _ & _ & _ & _ & _ & Hpublish).
    exact (f_equal (fmap fst) Hpublish).
  - destruct (publish_next_slot_retries_once (H := scripted) 0 boss tick_args
                (scripted_state [no_row; no_row] (throttled_heap true))
                (snd (first [no_row; no_row])) (snd (second [no_row; no_row]))
                (VStr "tick") VNull (VStr "job-0") (VStr "job-1") 0%nat
                (throttled_heap true) (SqlResult (VNum (Int 0)) []) no_row
                eq_refl eq_refl ltac:(discriminate) eq_refl eq_refl)
      as (_ & _ & _ & _ & _ & _ & Hpublish).
    exact (f_equal (fmap fst) Hpublish).
Defined.

Lemma publish_mutates_caller_options_witness :
  (∃ out s',
      publish (H := scripted) 2 boss tick_args
        (scripted_state [no_row; one_row] (throttled_heap true)) = Some (out, s')
      ∧ get (objects s') 0%nat "startIn" = VNum (Int 60)
      ∧ get (objects s') 0%nat "singletonNextSlot" = VBool false)
  ∧ (∃ out s',
      publish (H := scripted) 2 boss [VObj 1%nat]
        (scripted_state [no_row; one_row] (throttled_heap true)) = Some (out, s')
      ∧ get (objects s') 0%nat "startIn" = VNum (Int 60)
      ∧ get (objects s') 0%nat "singletonNextSlot" = VBool false).
Proof.
  pose (first :=
          insert_attempt (H := scripted) boss (VStr "tick") VNull 0%nat VUndef
            (set_objects (throttled_heap true)
               (scripted_state [no_row; one_row] (throttled_heap true)))).
  pose (first' :=
          insert_attempt (H := scripted) boss (VStr "tick") VUndef 0%nat VUndef
            (set_objects (throttled_heap true)
               (scripted_state [no_row; one_row] (throttled_heap true)))).
  split.
  - destruct (publish_mutates_caller_options (H := scripted) 0 boss tick_args
                (scripted_state [no_row; one_row] (throttled_heap true))
                (snd first) (VStr "tick") VNull (VStr "job-0") 0%nat
                (throttled_options true) (throttled_heap true)
                (SqlResult (VNum (Int 0)) [])
                eq_refl eq_refl eq_refl ltac:(discriminate) eq_refl)
      as (out & s' & Hpublish & Hstart & Hslot & _).
    exists out, s'. split; [exact Hpublish|]. split; [exact Hstart|exact Hslot].
  - destruct (publish_mutates_caller_options (H := scripted) 0 boss [VObj 1%nat]
                (scripted_state [no_row; one_row] (throttled_heap true))
                (snd first') (VStr "tick") VUndef (VStr "job-0") 0%nat
                (throttled_options true) (throttled_heap true)
                (SqlResult (VNum (Int 0)) [])
                eq_refl eq_refl eq_refl ltac:(discriminate) eq_refl)
      as (out & s' & Hpublish & Hstart & Hslot & _).
    exists out, s'. split; [exact Hpublish|]. split; [exact Hstart|exact Hslot].
Defined.

Section PublishArguments.
Context {H : Host}.

(** The positional form refuses a function as payload. *)
Lemma publish_positional_rejects_function (name source : string)
    (rest : list value) (h : heap) :
  publish_getArgs (VStr name :: VFun source :: rest) h
  = (inl (AssertionError
            "publish() cannot accept a function as the payload.  Did you intend to use subscribe()?"),
     h).
Proof. reflexivity. Qed.

(** Both forms refuse a missing or empty name: arguments that pass carry a
    truthy name. *)
Lemma publish_getArgs_name (args : list value) (h h' : heap)
    (name data : value) (options : loc) :
  publish_getArgs args h = (inr (name, data, options), h') → truthy name = true.
Proof.
  unfold publish_getArgs.
  match goal with
  | |- context [match ?u with inl _ => _ | inr _ => _ end] =>
      destruct u as [e|[[n d] o]]
  end; [done|].
  destruct (if truthy o then _ else _) as [o' h1].
  destruct (truthy n) eqn:Hn; simpl; [|done].
  destruct o'; try done. by intros [= <- _ _ _].
Qed.

(** Arguments that do not pass reject the call before any insert. *)
Lemma publish_rejected_before_insert (fuel : nat) (m : Manager)
    (args : list value) (s : state) (e : error) (h : heap) :
  publish_getArgs args (objects s) = (inl e, h) →
  ∃ s', publish fuel m args s = Some (Rejected e, s') ∧ sql_log s' = sql_log s.
Proof.
  intros Hargs. unfold publish. rewrite Hargs. by eexists.
Qed.

End PublishArguments.

(** C3 fails on the single-object form: [publish('job', f)] is refused for
    its function payload, but [publish({ name: 'job', data: f })] passes the
    argument check and runs the insert with the function as data. *)
Theorem publish_object_form_accepts_function_payload :
  fst (publish_getArgs [VStr "job"; callable] callable_job_heap)
    = inl (AssertionError
             "publish() cannot accept a function as the payload.  Did you intend to use subscribe()?")
  ∧ fst (publish_getArgs [VObj 0%nat] callable_job_heap)
    = inr (VStr "job", callable, 1%nat)
  ∧ fst <$> publish (H := scripted) 1 boss [VObj 0%nat]
              (scripted_state [one_row] callable_job_heap)
    = Some (Resolved (VStr "job-0"))
  ∧ (sql_log ∘ snd) <$> publish (H := scripted) 1 boss [VObj 0%nat]
                         (scripted_state [one_row] callable_job_heap)
    = Some [ (insertJobCommand boss,
              Params [ VStr "job-0"; VStr "job"; VNum (Int 0); VStr "0";
                       VStr "15 minutes"; callable; VNull; VNull; VNum (Int 0) ]) ].
Proof. repeat split; reflexivity. Qed.

(** ** fetch, complete, cancel *)

Lemma includes_middle (before needle after : string) :
  includes needle (before ++ needle ++ after).
Proof. by exists before, after. Qed.

(** C4: complete(id) resolves with that id when the store reports exactly
    one row, and is otherwise rejected with an assertion error whose message
    contains the id; cancel(id) does the same against the cancel plan; and on
    a store where a completed job is terminal, completing a job a second
    time is rejected in that way. *)
Theorem complete_cancel_one_row_or_not_found :
  (∀ (H : Host) (m : Manager) (id : value) (s s' : state) (result : sqlResult),
      exec (completeJobCommand m) (Params [id]) s = (inr result, s') →
      (rowCount result = VNum (Int 1) → complete m id s = (Resolved id, s'))
      ∧ (rowCount result ≠ VNum (Int 1) →
          complete m id s
          = (Rejected (AssertionError ("Job " ++ ToString id ++ " could not be completed.")), s')
          ∧ includes (ToString id) ("Job " ++ ToString id ++ " could not be completed.")))
  ∧ (∀ (H : Host) (m : Manager) (id : value) (s s' : state) (result : sqlResult),
      exec (cancelJobCommand m) (Params [id]) s = (inr result, s') →
      (rowCount result = VNum (Int 1) → cancel m id s = (Resolved id, s'))
      ∧ (rowCount result ≠ VNum (Int 1) →
          cancel m id s
          = (Rejected (AssertionError ("Job " ++ ToString id ++ " could not be cancelled.")), s')
          ∧ includes (ToString id) ("Job " ++ ToString id ++ " could not be cancelled.")))
  ∧ (∀ (cfg : configuration) (id out : value) (s s1 : @state job_store),
      complete (H := job_store) (constructor cfg) id s = (Resolved out, s1) →
      out = id
      ∧ fst (complete (H := job_store) (constructor cfg) id s1)
        = Rejected (AssertionError ("Job " ++ ToString id ++ " could not be completed."))).
Proof.
  split; [|split].
  - intros H m id s s' result Hexec. unfold complete. rewrite Hexec. split.
    + intros Hone%strict_equal_one. by rewrite Hone.
    + intros Hnot%strict_equal_not_one. rewrite Hnot. split; [done|].
      apply includes_middle.
  - intros H m id s s' result Hexec. unfold cancel. rewrite Hexec. split.
    + intros Hone%strict_equal_one. by rewrite Hone.
    + intros Hnot%strict_equal_not_one. rewrite Hnot. split; [done|].
      apply includes_middle.
  - intros cfg id out s s1.
    unfold complete, exec.
    change (executeSql (completeJobCommand (constructor cfg)) (Params [id]) (objects s) (world s))
      with (match (world s : gmap string job_state) !! ToString id with
            | Some active =>
                (inr (SqlResult (VNum (Int 1)) []) : error + sqlResult,
                 <[ToString id := completed]> (world s : gmap string job_state))
            | _ => (inr (SqlResult (VNum (Int 0)) []), world s)
            end).
    destruct ((world s : gmap string job_state) !! ToString id) as [[]|] eqn:Hjob;
      try done.
    intros [= <- <-]. split; [done|].
    change (executeSql (completeJobCommand (constructor cfg)) (Params [id]) ?h ?w)
      with (match (w : gmap string job_state) !! ToString id with
            | Some active =>
                (inr (SqlResult (VNum (Int 1)) []) : error + sqlResult,
                 <[ToString id := completed]> (w : gmap string job_state))
            | _ => (inr (SqlResult (VNum (Int 0)) []), w)
            end).
    cbn [world]. by rewrite lookup_insert_eq.
Qed.

Section FetchProperties.
Context {H : Host}.

(** C5: when the executor returns no row, fetch resolves with null;
    otherwise it resolves with the first row, whose name field is the
    requested name whatever the plan put there, its other fields kept. *)
Theorem fetch_null_or_first_row_named (m : Manager) (name : value)
    (s s' : state) (result : sqlResult) :
  exec (nextJobCommand m) (OneParam name) s = (inr result, s') →
  (rows result = [] → fetch m name s = (Resolved None, s'))
  ∧ (∀ job rest, rows result = job :: rest →
       fetch m name s = (Resolved (Some (<["name" := name]> job)), s')
       ∧ (<["name" := name]> job) !! "name" = Some name
       ∧ ∀ k, k ≠ "name" → (<["name" := name]> job) !! k = job !! k).
Proof.
  intros Hexec. unfold fetch. rewrite Hexec. split.
  - by intros ->.
  - intros job rest ->. simpl. split; [done|]. split.
    + apply lookup_insert_eq.
    + intros k Hk. by apply lookup_insert_ne.
Qed.

End FetchProperties.

Lemma complete_cancel_one_row_or_not_found_witness :
  fst (complete (H := scripted) boss (VStr "job-7") (scripted_state [one_row] ∅))
    = Resolved (VStr "job-7")
  ∧ fst (cancel (H := scripted) boss (VStr "job-7") (scripted_state [no_row] ∅))
    = Rejected (AssertionError "Job job-7 could not be cancelled.")
  ∧ fst (complete (H := job_store) boss (VStr "job-7")
           (snd (complete (H := job_store) boss (VStr "job-7")
                   (@initial job_store {[ "job-7" := active ]} ∅))))
    = Rejected (AssertionError "Job job-7 could not be completed.").
Proof.
  destruct complete_cancel_one_row_or_not_found as (Hcomplete & Hcancel & Htwice).
  split; [|split].
  - edestruct (Hcomplete scripted boss (VStr "job-7") (scripted_state [one_row] ∅))
      as (Hone & _); [reflexivity|].
    rewrite Hone; reflexivity.
  - edestruct (Hcancel scripted boss (VStr "job-7") (scripted_state [no_row] ∅))
      as (_ & Hnone); [reflexivity|].
    destruct Hnone as (-> & _); [discriminate | reflexivity].
  - edestruct (Htwice example_config (VStr "job-7") (VStr "job-7")
                 (@initial job_store {[ "job-7" := active ]} ∅)) as (_ & Hsecond);
      [reflexivity|].
    exact Hsecond.
Defined.

Lemma fetch_null_or_first_row_named_witness :
  fst (fetch (H := scripted) boss (VStr "email")
         (scripted_state [inr (SqlResult (VNum (Int 1)) [echoed_row])] ∅))
    = Resolved (Some {[ "id" := VStr "job-3"; "name" := VStr "email" ]})
  ∧ fst (fetch (H := scripted) boss (VStr "email") (scripted_state [no_row] ∅))
    = Resolved None.
Proof.
  split.
  - edestruct (fetch_null_or_first_row_named (H := scripted) boss (VStr "email")
                 (scripted_state [inr (SqlResult (VNum (Int 1)) [echoed_row])] ∅))
      as (_ & Hrow); [reflexivity|].
    edestruct Hrow as (-> & _); reflexivity.
  - edestruct (fetch_null_or_first_row_named (H := scripted) boss (VStr "email")
                 (scripted_state [no_row] ∅))
      as (Hnull & _); [reflexivity|].
    rewrite Hnull; reflexivity.
Defined.

(** ** monitor and stop *)

Section LifecycleProperties.
Context {H : Host}.

(** A sweep touches neither the timers nor the stopped flag, and emits at
    most an 'expired' event. *)
Lemma expire_frame (m : Manager) (s s1 : state) (r : option error) :
  expire m s = (r, s1) →
  stopped s1 = stopped s ∧ armed s1 = armed s ∧ next_timer s1 = next_timer s
  ∧ expireTimer s1 = expireTimer s
  ∧ (emitted s1 = emitted s ∨ ∃ count, emitted s1 = (emitted s ++ [ev_expired count])%list).
Proof.
  unfold expire, exec, expire_settled, emit.
  destruct (executeSql _ _ _ _) as [[e|result] w].
  - intros [= <- <-]. simpl. eauto 10.
  - destruct (truthy (rowCount result)); intros [= <- <-]; simpl; eauto 10.
Qed.

Lemma init_stopped (m : Manager) (s : state) :
  stopped s = true → init m s = s.
Proof. unfold init. by intros ->. Qed.

Lemma init_running (m : Manager) (s : state) :
  stopped s = false →
  expireTimer (init m s) = Some (next_timer s)
  ∧ armed (init m s) = <[next_timer s := cfg_expireCheckInterval (config m)]> (armed s)
  ∧ emitted (init m s) = emitted s
  ∧ stopped (init m s) = false.
Proof. unfold init. intros Hrun. rewrite Hrun. simpl. auto. Qed.

(** C6, as the code has it: an error raised by a sweep that a timer tick
    started is emitted as an 'error' event, and when that emit returns the
    monitor arms its timer again unless the Manager is stopped; an error
    raised by the initial sweep is not emitted: it rejects the promise that
    monitor() returned and no timer is armed. *)
Theorem sweep_error_emitted_on_tick_rejected_on_start (m : Manager)
    (s s1 : state) (e : error) :
  (∀ handle,
      expire m (timer_fires handle s) = (Some e, s1) →
      deliver (ev_error e) = None →
      emitted (check m handle s) = (emitted s1 ++ [ev_error e])%list
      ∧ (stopped s = false →
          expireTimer (check m handle s) = Some (next_timer s)
          ∧ armed (check m handle s)
            = <[next_timer s := cfg_expireCheckInterval (config m)]>
                (delete handle (armed s)))
      ∧ (stopped s = true → armed (check m handle s) = delete handle (armed s)))
  ∧ (expire m s = (Some e, s1) →
      monitor m s = (Rejected e, s1)
      ∧ armed s1 = armed s
      ∧ expireTimer s1 = expireTimer s
      ∧ (ev_error e ∈ emitted s1 → ev_error e ∈ emitted s)).
Proof.
  split.
  - intros handle Hexpire Hdeliver.
    pose proof (expire_frame _ _ _ _ Hexpire) as (Hstopped & Harmed & Hnext & _ & _).
    simpl in Hstopped, Harmed, Hnext.
    unfold check. rewrite Hexpire. unfold emit. rewrite Hdeliver.
    set (s2 := State _ _ _ _ _ _ _ _ _ _).
    assert (stopped s2 = stopped s ∧ armed s2 = delete handle (armed s)
            ∧ next_timer s2 = next_timer s
            ∧ emitted s2 = (emitted s1 ++ [ev_error e])%list)
      as (Hstopped2 & Harmed2 & Hnext2 & Hemitted2) by done.
    split; [|split].
    + destruct (stopped s2) eqn:Hs2.
      * by rewrite init_stopped.
      * by destruct (init_running m s2 Hs2) as (_ & _ & -> & _).
    + intros Hrun. rewrite <- Hstopped2 in Hrun.
      destruct (init_running m s2 Hrun) as (-> & -> & _).
      by rewrite Hnext2, Harmed2.
    + intros Hstop. rewrite <- Hstopped2 in Hstop.
      by rewrite init_stopped.
  - intros Hexpire.
    pose proof (expire_frame _ _ _ _ Hexpire) as (_ & Harmed & _ & Htimer & Hemitted).
    unfold monitor. rewrite Hexpire.
    split; [done|]. split; [done|]. split; [done|].
    destruct Hemitted as [->|[count ->]]; [done|].
    rewrite elem_of_app, list_elem_of_singleton.
    by intros [?|?].
Qed.

Lemma stop_settled_disarms (s : state) :
  one_timer s → stopped (stop_settled s) = true ∧ armed (stop_settled s) = ∅.
Proof.
  intros Hone. unfold stop_settled, set_stopped. simpl.
  destruct (expireTimer s) as [handle|] eqn:Htimer; simpl; (split; [done|]).
  - apply map_eq. intros k. rewrite lookup_empty.
    destruct (decide (k = handle)) as [->|Hk].
    + apply lookup_delete_eq.
    + rewrite lookup_delete_ne by done.
      destruct (armed s !! k) eqn:Harmed; [|done].
      specialize (Hone k (mk_is_Some _ _ Harmed)). congruence.
  - apply map_eq. intros k. rewrite lookup_empty.
    destruct (armed s !! k) eqn:Harmed; [|done].
    specialize (Hone k (mk_is_Some _ _ Harmed)). congruence.
Qed.

Lemma close_one_timer (s : state) : one_timer s → one_timer (close s).
Proof. done. Qed.



Lemma stop_unfold (s : state) :
  stop s = State (objects s) (world s) (sql_log s) [] true (expireTimer s)
             (foldl (fun p i => alter Worker_stop i p) (pool s) (workers s))
             (match expireTimer s with
              | Some handle => delete handle (armed s)
              | None => armed s
              end)
             (next_timer s) (emitted s).
Proof.
  unfold stop, stop_settled, set_stopped, close, clearTimeout.
  cbn [objects world sql_log workers stopped expireTimer pool armed next_timer emitted].
  by destruct (expireTimer s).
Qed.



(** [one_timer] holds along the life of a Manager: at its creation, after
    monitor() on a Manager with no timer armed, when its timer goes off,
    after each tick, and after stop(). *)
Lemma one_timer_initial (w : World) (h : heap) : one_timer (initial w h).
Proof.
  intros handle [v Hv].
  change ((∅ : gmap nat value) !! handle = Some v) in Hv.
  by rewrite lookup_empty in Hv.
Qed.

Lemma one_timer_init (m : Manager) (s : state) :
  armed s = ∅ → one_timer (init m s).
Proof.
  intros Harmed. unfold init.
  destruct (stopped s).
  - intros handle [v Hv]. by rewrite Harmed, lookup_empty in Hv.
  - intros handle [v Hv]. simpl in *. rewrite Harmed in Hv.
    destruct (decide (next_timer s = handle)) as [->|Hne]; [done|].
    rewrite lookup_insert_ne in Hv by done. by rewrite lookup_empty in Hv.
Qed.

Lemma one_timer_monitor (m : Manager) (s : state) :
  armed s = ∅ → one_timer (snd (monitor m s)).
Proof.
  intros Harmed. unfold monitor.
  destruct (expire m s) as [[e|] s1] eqn:Hexpire;
    pose proof (expire_frame _ _ _ _ Hexpire) as (_ & Ha & _).
  - intros handle [v Hv]. simpl in Hv. by rewrite Ha, Harmed, lookup_empty in Hv.
  - simpl. apply one_timer_init. by rewrite Ha.
Qed.

Lemma one_timer_timer_fires (handle : nat) (s : state) :
  one_timer s → one_timer (timer_fires handle s).
Proof.
  intros Hone k [v Hv]. simpl in *.
  destruct (decide (handle = k)) as [->|Hk];
    [by rewrite lookup_delete_eq in Hv|].
  rewrite lookup_delete_ne in Hv by done.
  by apply Hone.
Qed.

Lemma one_timer_stop (s : state) : one_timer s → one_timer (stop s).
Proof.
  intros Hone k [v Hv].
  destruct (stop_settled_disarms (close s) (close_one_timer s Hone)) as [_ Harmed].
  unfold stop in Hv. by rewrite Harmed, lookup_empty in Hv.
Qed.

Lemma one_timer_check (m : Manager) (handle : nat) (s : state) :
  one_timer s → is_Some (armed s !! handle) → one_timer (check m handle s).
Proof.
  intros Hone Hfires.
  assert (Hfired : armed (timer_fires handle s) = ∅).
  { pose proof (Hone handle Hfires) as Htimer.
    apply map_eq. intros k. rewrite lookup_empty. simpl.
    destruct (decide (k = handle)) as [->|Hk]; [apply lookup_delete_eq|].
    rewrite lookup_delete_ne by done.
    destruct (armed s !! k) eqn:Harmed; [|done].
    specialize (Hone k (mk_is_Some _ _ Harmed)). congruence. }
  unfold check.
  destruct (expire m (timer_fires handle s)) as [[e|] s1] eqn:Hexpire;
    pose proof (expire_frame _ _ _ _ Hexpire) as (_ & Ha & _);
    rewrite Hfired in Ha.
  - unfold emit. destruct (deliver _); simpl.
    + intros k [v Hv]. simpl in Hv. by rewrite Ha, lookup_empty in Hv.
    + by apply one_timer_init.
  - by apply one_timer_init.
Qed.

End LifecycleProperties.

(** ** subscribe *)

Section SubscribeProperties.
Context {H : Host}.



Lemma has_alloc (h : heap) (k : string) :
  has (snd (alloc ∅ h)) (fst (alloc ∅ h)) k = false.
Proof. unfold has, alloc. simpl. by rewrite lookup_insert_eq. Qed.

Lemma get_alloc (h : heap) (k : string) :
  get (snd (alloc ∅ h)) (fst (alloc ∅ h)) k = VUndef.
Proof. unfold get, alloc. simpl. by rewrite lookup_insert_eq. Qed.


Lemma or_fresh_object_truthy (v : value) (h : heap) :
  truthy v = true → or_fresh_object v h = (v, h).
Proof. unfold or_fresh_object. by intros ->. Qed.

Lemma or_fresh_object_falsy (v : value) (h : heap) :
  truthy v = false →
  or_fresh_object v h = (VObj (fst (alloc ∅ h)), snd (alloc ∅ h)).
Proof. unfold or_fresh_object. by intros ->. Qed.



End SubscribeProperties.

(** ** Runs of the examples *)

(** C6 as stated fails on the initial sweep: when the database refuses it,
    monitor() is rejected with the error, no 'error' event is emitted and no
    timer is armed. *)
Lemma initial_sweep_error_escapes :
  fst (expire (H := scripted) boss lost_connection_state) = Some connection_lost
  ∧ fst (monitor (H := scripted) boss lost_connection_state) = Rejected connection_lost
  ∧ emitted (snd (monitor (H := scripted) boss lost_connection_state)) = []
  ∧ armed (snd (monitor (H := scripted) boss lost_connection_state)) = ∅
  ∧ ¬ (ev_error connection_lost
         ∈ emitted (snd (monitor (H := scripted) boss lost_connection_state))
       ∧ armed (snd (monitor (H := scripted) boss lost_connection_state)) ≠ ∅).
Proof.
  repeat split; try reflexivity.
  intros [_ Harmed]. by apply Harmed.
Qed.

Lemma sweep_error_emitted_on_tick_rejected_on_start_witness :
  emitted (check (H := scripted) boss 0%nat armed_state) = [ev_error connection_lost]
  ∧ expireTimer (check (H := scripted) boss 0%nat armed_state) = Some 1%nat
  ∧ monitor (H := scripted) boss lost_connection_state
    = (Rejected connection_lost, snd (expire (H := scripted) boss lost_connection_state)).
Proof.
  destruct (sweep_error_emitted_on_tick_rejected_on_start (H := scripted) boss
              armed_state
              (snd (expire (H := scripted) boss (timer_fires 0%nat armed_state)))
              connection_lost) as [Htick _].
  destruct (Htick 0%nat eq_refl eq_refl) as (Hemitted & Hrearm & _).
  destruct (Hrearm eq_refl) as [Htimer _].
  destruct (sweep_error_emitted_on_tick_rejected_on_start (H := scripted) boss
              lost_connection_state
              (snd (expire (H := scripted) boss lost_connection_state))
              connection_lost) as [_ Hstart].
  destruct (Hstart eq_refl) as (Hmonitor & _).
  split; [exact Hemitted|]. split; [exact Htimer|]. exact Hmonitor.
Defined.




(** * Further properties *)

(** ** More on the arguments of publish *)

Section PublishArgumentCheck.
Context {H : Host}.

(** The last two checks of [publish.getArgs]: a truthy name, and options
    that are absent or an object. *)
Lemma publish_checks_accept (name data options : value) (h : heap) :
  (∃ r h',
      (let '(options0, h0) :=
         if truthy options then (options, h)
         else let '(l, h1) := alloc ∅ h in (VObj l, h1) in
       if negb (truthy name)
       then (inl (AssertionError "boss requires all jobs to have a name"), h0)
       else
         match options0 with
         | VObj l => (inr (name, data, l), h0)
         | _ => (inl (AssertionError "options should be an object"), h0)
         end) = (inr r, h'))
  ↔ truthy name = true ∧ options_ok options.
Proof.
  unfold options_ok. split.
  - intros (r & h' & Hr).
    destruct (truthy options) eqn:Hopt; destruct (truthy name); try done.
    + split; [done|]. right. destruct options; try done. by eexists.
    + split; [done|]. by left.
  - intros [-> [Hfalsy|[l ->]]]; [rewrite Hfalsy|]; by eexists _, _.
Qed.

Lemma single_argument (args : list value) (v : value) :
  arg 0 args = v → length args = 1%nat → args = [v].
Proof.
  destruct args as [|a [|b rest]]; try done.
  unfold arg. simpl. by intros ->.
Qed.

(** X1: [publish.getArgs] lets a call through exactly when it is
    publish(name, data, options) with a non-empty string for name, a payload
    that is not a function and options that are absent or an object, or
    publish(job) with a single object whose name is truthy and whose options
    are absent or an object. *)
Theorem publish_getArgs_accepts (args : list value) (h : heap) :
  (∃ r h', publish_getArgs args h = (inr r, h'))
  ↔ ((∃ name, arg 0 args = VStr name ∧ name ≠ ""
              ∧ typeof (arg 1 args) ≠ "function" ∧ options_ok (arg 2 args))
     ∨ (∃ job, args = [VObj job] ∧ truthy (get h job "name") = true
               ∧ options_ok (get h job "options"))).
Proof.
  unfold publish_getArgs.
  destruct (arg 0 args) as [| |b|n|name|f|job] eqn:Harg0; cbn [typeof String.eqb].
  1,3,4,6: cbn; split; [by intros (? & ? & ?)|];
    intros [(? & ? & _)|(job & -> & _)]; done.
  - (* null *)
    cbn. destruct (negb (length args =? 1)%nat); cbn.
    all: split; [by intros (? & ? & ?)|];
      intros [(? & ? & _)|(job & -> & _)]; done.
  - (* a string *)
    change (String.eqb "string" "string") with true. cbn iota.
    destruct (String.eqb (typeof (arg 1 args)) "function") eqn:Hdata.
    + apply String.eqb_eq in Hdata. split; [by intros (? & ? & ?)|].
      intros [(? & _ & _ & Hnot & _)|(job & -> & _)]; done.
    + apply String.eqb_neq in Hdata.
      destruct (publish_checks_accept (VStr name) (arg 1 args) (arg 2 args) h)
        as [Hfwd Hbwd].
      split.
      * intros Hex. destruct (Hfwd Hex) as [Hname Hopt].
        left. exists name. split; [done|].
        split; [|done]. intros ->. done.
      * intros [(name' & [= <-] & Hname & _ & Hopt)|(job & -> & _)]; [|done].
        apply Hbwd. split; [|done]. simpl. by destruct name.
  - (* an object *)
    change (String.eqb "object" "string") with false.
    change (String.eqb "object" "object") with true. cbn iota.
    destruct (Nat.eqb (length args) 1) eqn:Hlen; cbn [negb].
    + apply Nat.eqb_eq in Hlen.
      destruct (publish_checks_accept (get h job "name") (get h job "data")
                  (get h job "options") h) as [Hfwd Hbwd].
      split.
      * intros Hex. destruct (Hfwd Hex) as [Hname Hopt].
        right. exists job. split; [by apply single_argument|done].
      * intros [(? & ? & _)|(job' & Hargs & Hname & Hopt)]; [done|].
        rewrite Hargs in Harg0. injection Harg0 as ->. by apply Hbwd.
    + apply Nat.eqb_neq in Hlen. split; [by intros (? & ? & ?)|].
      intros [(? & ? & _)|(job' & -> & _)]; done.
Qed.

End PublishArgumentCheck.


Section PublishFurther.
Context {H : Host}.


(** X3: whatever the arguments, [publish.getArgs] rejects only with one
    of its four assertion errors; malformed arguments never surface as a
    TypeError. *)
Theorem publish_getArgs_rejections (args : list value) (h h' : heap) (e : error) :
  publish_getArgs args h = (inl e, h') → e ∈ publish_assertions.
Proof.
  unfold publish_getArgs, publish_assertions.
  match goal with
  | |- context [match ?u with inl _ => _ | inr _ => _ end] =>
      assert (Hu : match u with inl e0 => e0 ∈ publish_assertions | inr _ => True end)
  end.
  { destruct (String.eqb (typeof (arg 0 args)) "string").
    - destruct (String.eqb (typeof (arg 1 args)) "function"); [|done].
      unfold publish_assertions. set_solver.
    - destruct (String.eqb (typeof (arg 0 args)) "object"); [|done].
      destruct (negb _); [unfold publish_assertions; set_solver|].
      destruct (arg 0 args); try done; unfold publish_assertions; set_solver. }
  revert Hu.
  match goal with
  | |- context [match ?u with inl _ => _ | inr _ => _ end] =>
      destruct u as [e0|[[name data] options]]
  end.
  - intros He [= <- _]. exact He.
  - intros _.
    destruct (if truthy options then _ else _) as [o h0].
    destruct (negb (truthy name)).
    + intros [= <- _]. set_solver.
    + destruct o; intros [= <- _] || intros [=]; set_solver.
Qed.

End PublishFurther.


Section InsertParameters.
Context {H : Host}.


Lemma window_null_or_positive (h : heap) (options : loc) :
  derive_singletonSeconds h options = VNull
  ∨ positive StringToNumber (derive_singletonSeconds h options) = true.
Proof.
  unfold derive_singletonSeconds.
  destruct (positive StringToNumber (get h options "singletonSeconds")) eqn:Hs;
    [by right|].
  destruct (positive StringToNumber (get h options "singletonMinutes")) eqn:Hm.
  { right. destruct (positive_times _ 60 Hm) as (k & -> & Hk); [lia|].
    by apply Z.ltb_lt. }
  destruct (positive StringToNumber (get h options "singletonHours")) eqn:Hh.
  { right. rewrite times_times.
    destruct (positive_times _ (60 * 60) Hh) as (k & -> & Hk); [lia|].
    by apply Z.ltb_lt. }
  destruct (positive StringToNumber (get h options "singletonDays")) eqn:Hd;
    [|by left].
  right. rewrite !times_times.
  destruct (positive_times _ (60 * (60 * 24)) Hd) as (k & -> & Hk); [lia|].
  by apply Z.ltb_lt.
Qed.

(** X5: the singletonSeconds handed to the insert plan is null or
    strictly positive: it is never undefined, NaN, zero or a negative
    number. *)
Theorem singletonSeconds_null_or_positive (h : heap) (options : loc) :
  (derive_singletonSeconds h options = VNull
   ∨ positive StringToNumber (derive_singletonSeconds h options) = true)
  ∧ derive_singletonSeconds h options ≠ VUndef
  ∧ derive_singletonSeconds h options ≠ VNum NaN
  ∧ ∀ n, derive_singletonSeconds h options = VNum (Int n) → 0 < n.
Proof.
  split; [apply window_null_or_positive|].
  split; [|split].
  - destruct (window_null_or_positive h options) as [->|Hpos]; [done|].
    by intros E; rewrite E in Hpos.
  - destruct (window_null_or_positive h options) as [->|Hpos]; [done|].
    by intros E; rewrite E in Hpos.
  - apply derive_singletonSeconds_number.
Qed.

(** X6: in the retry that singletonNextSlot asks for, startIn is the text
    of the singleton window, or '0' when no window is configured: the
    startIn the caller gave has been overwritten and plays no part. *)
Theorem retry_startIn_from_window (options : loc) (s : state) :
  let window := derive_singletonSeconds (objects s) options in
  derive_startIn (objects (prepare_next_slot options window s)) options
  = match window with
    | VNull => VStr "0"
    | _ => VStr (ToString window)
    end.
Proof.
  intros window. unfold derive_startIn, prepare_next_slot.
  cbn [set_objects objects].
  rewrite get_put_ne by done. rewrite get_put_eq.
  destruct (window_null_or_positive (objects s) options) as [Hnull|Hpos].
  - fold window in Hnull. by rewrite Hnull.
  - fold window in Hpos. rewrite Hpos. by destruct window.
Qed.

End InsertParameters.


Section PublishOutcomes.
Context {H : Host}.

Lemma same_lifecycle_refl (s : state) : same_lifecycle s s.
Proof. by repeat split. Qed.

Lemma same_lifecycle_trans (s1 s2 s3 : state) :
  same_lifecycle s1 s2 → same_lifecycle s2 s3 → same_lifecycle s1 s3.
Proof.
  unfold same_lifecycle.
  intros (? & ? & ? & ? & ? & ? & ?) (? & ? & ? & ? & ? & ? & ?).
  repeat split; congruence.
Qed.

Lemma exec_lifecycle (c : command) (p : params) (s s' : state)
    (r : error + sqlResult) :
  exec c p s = (r, s') →
  same_lifecycle s s' ∧ objects s' = objects s
  ∧ sql_log s' = (sql_log s ++ [(c, p)])%list.
Proof.
  unfold exec. destruct (executeSql _ _ _ _) as [r0 w].
  intros [= <- <-]. by repeat split.
Qed.

Lemma new_id_lifecycle (m : Manager) (s : state) :
  same_lifecycle s (snd (new_id m s))
  ∧ objects (snd (new_id m s)) = objects s
  ∧ sql_log (snd (new_id m s)) = sql_log s.
Proof.
  unfold new_id. destruct (uuid _ _) as [id w]. by repeat split.
Qed.

(** One round of [insertJob] is one executor call, on the insert plan, with
    nine parameters led by the id. *)
Lemma insert_attempt_exec (m : Manager) (name data : value) (options : loc)
    (offset id : value) (r : error + sqlResult) (s s' : state) :
  insert_attempt m name data options offset s = (id, r, s') →
  ∃ rest,
    length rest = 8%nat
    ∧ exec (insertJobCommand m) (Params (id :: rest)) (snd (new_id m s)) = (r, s')
    ∧ same_lifecycle s s'.
Proof.
  unfold insert_attempt.
  pose proof (new_id_lifecycle m s) as (Hlife & _).
  destruct (new_id m s) as [id0 s1]. cbn [snd] in *.
  destruct (exec _ _ s1) as [r0 s2] eqn:Hexec.
  intros [= <- <- <-].
  eexists. split; [|split; [exact Hexec|]]; [done|].
  eapply same_lifecycle_trans; [exact Hlife|].
  by apply exec_lifecycle in Hexec as (? & _).
Qed.

Lemma prepare_next_slot_lifecycle (options : loc) (v : value) (s : state) :
  same_lifecycle s (prepare_next_slot options v s)
  ∧ sql_log (prepare_next_slot options v s) = sql_log s.
Proof. by repeat split. Qed.

Lemma insertJob_outcome (fuel : nat) :
  ∀ (m : Manager) (name data : value) (options : loc) (offset : value)
    (s s' : state) (out : outcome value),
    insertJob fuel m name data options offset s = Some (out, s') →
    decided_by_insert m out s'
    ∧ same_lifecycle s s'
    ∧ (∃ calls, sql_log s' = (sql_log s ++ calls)%list
                ∧ (1 ≤ length calls)%nat
                ∧ Forall (fun c => fst c = insertJobCommand m) calls)
    ∧ (∀ l k, k ≠ "startIn" → k ≠ "singletonNextSlot" →
         get (objects s') l k = get (objects s) l k)
    ∧ (∀ l, l ≠ options → objects s' !! l = objects s !! l).
Proof.
  induction fuel as [|fuel IH]; intros m name data options offset s s' out; [done|].
  cbn [insertJob].
  destruct (insert_attempt m name data options offset s) as [[id r] s1] eqn:Hattempt.
  pose proof (insert_attempt_spec _ _ _ _ _ _ _ _ _ Hattempt) as (_ & Hobj & Hlog).
  destruct (insert_attempt_exec _ _ _ _ _ _ _ _ _ Hattempt) as (rest & Hrest & Hexec & Hlife).
  assert (Hhere : ∀ out0, out0 = match r with
            | inl e => Rejected e
            | inr result =>
                if strict_equal (rowCount result) (VNum (Int 1))
                then Resolved id else Resolved VNull
            end →
    decided_by_insert m out0 s1
    ∧ same_lifecycle s s1
    ∧ (∃ calls, sql_log s1 = (sql_log s ++ calls)%list
                ∧ (1 ≤ length calls)%nat
                ∧ Forall (fun c => fst c = insertJobCommand m) calls)
    ∧ (∀ l k, k ≠ "startIn" → k ≠ "singletonNextSlot" →
         get (objects s1) l k = get (objects s) l k)
    ∧ (∀ l, l ≠ options → objects s1 !! l = objects s !! l)).
  { intros out0 ->. split; [by exists (snd (new_id m s)), id, rest, r|].
    split; [done|]. split.
    - eexists. split; [exact Hlog|]. split; [simpl; lia|]. by repeat constructor.
    - rewrite Hobj. done. }
  destruct r as [e|result].
  { intros [= <- <-]. by apply Hhere. }
  destruct (strict_equal (rowCount result) (VNum (Int 1))) eqn:Hrows.
  { intros [= <- <-]. by apply Hhere. }
  destruct (truthy (get (objects s1) options "singletonNextSlot")); cbn [negb].
  2:{ intros [= <- <-]. by apply Hhere. }
  intros Hrec.
  destruct (IH _ _ _ _ _ _ _ _ Hrec) as (Hdecided & Hlife2 & (calls & Hlog2 & _ & Hcalls) & Hget & Hother).
  split; [done|]. split.
  { eapply same_lifecycle_trans; [exact Hlife|].
    eapply same_lifecycle_trans; [|exact Hlife2].
    apply prepare_next_slot_lifecycle. }
  split.
  { exists ((insertJobCommand m,
             Params (insert_values (objects s) id name data options offset)) :: calls).
    split; [|split].
    - rewrite Hlog2. cbn [prepare_next_slot set_objects sql_log].
      rewrite Hlog. by rewrite <- app_assoc.
    - simpl. lia.
    - by constructor. }
  split.
  - intros l k Hk1 Hk2. rewrite Hget by done.
    cbn [prepare_next_slot set_objects objects]. rewrite Hobj.
    destruct (decide (options = l)) as [->|Hl].
    + by rewrite !get_put_ne.
    + by rewrite !get_put_other.
  - intros l Hl. rewrite Hother by done.
    cbn [prepare_next_slot set_objects objects]. rewrite Hobj.
    unfold put. by rewrite !lookup_insert_ne.
Qed.

(** With singletonNextSlot off, [insertJob] is a single insert. *)
Lemma insertJob_last_round (fuel : nat) (m : Manager) (name data : value)
    (options : loc) (offset : value) (s s' : state) (out : outcome value) :
  truthy (get (objects s) options "singletonNextSlot") = false →
  insertJob fuel m name data options offset s = Some (out, s') →
  ∃ call, sql_log s' = (sql_log s ++ [call])%list ∧ objects s' = objects s.
Proof.
  intros Hslot. destruct fuel as [|fuel]; [done|]. cbn [insertJob].
  destruct (insert_attempt m name data options offset s) as [[id r] s1] eqn:Hattempt.
  pose proof (insert_attempt_spec _ _ _ _ _ _ _ _ _ Hattempt) as (_ & Hobj & Hlog).
  rewrite Hobj, Hslot. cbn [negb].
  destruct r as [e|result]; [|destruct (strict_equal _ _)];
    intros [= <- <-]; by eexists.
Qed.

(** Whatever the fuel, [insertJob] runs at most two inserts. *)
Lemma insertJob_at_most_twice (fuel : nat) (m : Manager) (name data : value)
    (options : loc) (offset : value) (s s' : state) (out : outcome value) :
  insertJob fuel m name data options offset s = Some (out, s') →
  ∃ calls, sql_log s' = (sql_log s ++ calls)%list ∧ (length calls ≤ 2)%nat.
Proof.
  destruct fuel as [|fuel]; [done|]. cbn [insertJob].
  destruct (insert_attempt m name data options offset s) as [[id r] s1] eqn:Hattempt.
  pose proof (insert_attempt_spec _ _ _ _ _ _ _ _ _ Hattempt) as (_ & Hobj & Hlog).
  assert (Hone : ∃ calls, sql_log s1 = (sql_log s ++ calls)%list ∧ (length calls ≤ 2)%nat).
  { eexists. split; [exact Hlog|]. simpl. lia. }
  destruct r as [e|result]; [by intros [= <- <-]|].
  destruct (strict_equal _ _); [by intros [= <- <-]|].
  destruct (negb _); [by intros [= <- <-]|].
  intros Hrec. apply insertJob_last_round in Hrec as (call & Hlog2 & _).
  - eexists [_; call]. split; [|simpl; lia].
    rewrite Hlog2. cbn [prepare_next_slot set_objects sql_log].
    rewrite Hlog. by rewrite <- app_assoc.
  - cbn [prepare_next_slot set_objects objects]. by rewrite get_put_eq.
Qed.


(** X7: a publish either is rejected by [getArgs] without any executor
    call, or makes one or two executor calls, all on the insert plan, and
    settles as the answer to the last one decides: the executor's error, the
    id of that insert on one row, null otherwise. *)
Theorem publish_decided_by_last_insert (fuel : nat) (m : Manager)
    (args : list value) (s s' : state) (out : outcome value) :
  publish fuel m args s = Some (out, s') →
  (∃ e h, publish_getArgs args (objects s) = (inl e, h)
          ∧ out = Rejected e ∧ sql_log s' = sql_log s)
  ∨ (decided_by_insert m out s'
     ∧ ∃ calls, sql_log s' = (sql_log s ++ calls)%list
                ∧ (1 ≤ length calls ≤ 2)%nat
                ∧ Forall (fun c => fst c = insertJobCommand m) calls).
Proof.
  unfold publish.
  destruct (publish_getArgs args (objects s)) as [[e|[[name data] options]] h] eqn:Hargs.
  - intros [= <- <-]. left. by exists e, h.
  - intros Hinsert. right.
    destruct (insertJob_outcome _ _ _ _ _ _ _ _ _ Hinsert)
      as (Hdecided & _ & (calls & Hlog & Hmin & Hplan) & _).
    destruct (insertJob_at_most_twice _ _ _ _ _ _ _ _ _ Hinsert) as (calls' & Hlog' & Hmax).
    split; [done|]. exists calls. split; [done|]. split; [|done].
    split; [done|].
    cbn [set_objects sql_log] in Hlog, Hlog'. rewrite Hlog in Hlog'.
    apply app_inv_head in Hlog'. by subst.
Qed.

(** X8: publish, fetch, complete and cancel leave the workers, the
    stopped flag, the expiration timer and the emitted events as they
    were. *)
Theorem store_operations_keep_lifecycle (m : Manager) (s s' : state) :
  (∀ fuel args out, publish fuel m args s = Some (out, s') → same_lifecycle s s')
  ∧ (∀ name out, fetch m name s = (out, s') → same_lifecycle s s')
  ∧ (∀ id out, complete m id s = (out, s') → same_lifecycle s s')
  ∧ (∀ id out, cancel m id s = (out, s') → same_lifecycle s s').
Proof.
  split; [|split; [|split]].
  - intros fuel args out. unfold publish.
    destruct (publish_getArgs args (objects s)) as [[e|[[name data] options]] h].
    + intros [= _ <-]. by repeat split.
    + intros Hinsert.
      by destruct (insertJob_outcome _ _ _ _ _ _ _ _ _ Hinsert) as (_ & Hlife & _).
  - intros name out. unfold fetch.
    destruct (exec _ _ s) as [r s1] eqn:Hexec.
    apply exec_lifecycle in Hexec as (Hlife & _).
    destruct r as [e|result]; [by intros [= _ <-]|].
    destruct (Nat.eqb _ _); [by intros [= _ <-]|].
    destruct (rows result); by intros [= _ <-].
  - intros id out. unfold complete.
    destruct (exec _ _ s) as [r s1] eqn:Hexec.
    apply exec_lifecycle in Hexec as (Hlife & _).
    destruct r as [e|result]; [by intros [= _ <-]|].
    destruct (strict_equal _ _); by intros [= _ <-].
  - intros id out. unfold cancel.
    destruct (exec _ _ s) as [r s1] eqn:Hexec.
    apply exec_lifecycle in Hexec as (Hlife & _).
    destruct r as [e|result]; [by intros [= _ <-]|].
    destruct (strict_equal _ _); by intros [= _ <-].
Qed.


(** X10: publish(name, data) without options runs exactly one insert,
    with the parameters [id, name, 0, '0', '15 minutes', data, null, null,
    0]. *)
Theorem publish_defaults (fuel : nat) (m : Manager) (name : string)
    (data : value) (s : state) :
  name ≠ "" → typeof data ≠ "function" →
  ∃ out s',
    publish (S fuel) m [VStr name; data] s = Some (out, s')
    ∧ sql_log s'
      = (sql_log s
         ++ [ (insertJobCommand m,
               Params [ fst (new_id m s); VStr name; VNum (Int 0); VStr "0";
                        VStr "15 minutes"; data; VNull; VNull; VNum (Int 0) ]) ])%list.
Proof.
  intros Hname Hdata%String.eqb_neq.
  assert (Htruthy : truthy (VStr name) = true) by by destruct name.
  unfold publish, publish_getArgs.
  cbn [arg nth typeof].
  change (String.eqb "string" "string") with true. cbn iota.
  rewrite Hdata. cbn [truthy].
  pose proof (fun k => get_alloc (objects s) k) as Hget.
  destruct (alloc ∅ (objects s)) as [l h] eqn:Halloc. cbn [fst snd] in Hget.
  cbn iota. cbn [truthy] in Htruthy. rewrite Htruthy. cbn [negb].
  cbn [insertJob].
  destruct (insert_attempt m (VStr name) data l VUndef (set_objects h s))
    as [[id r] s1] eqn:Hattempt.
  pose proof (insert_attempt_spec _ _ _ _ _ _ _ _ _ Hattempt) as (Hid & Hobj & Hlog).
  cbn [set_objects objects sql_log] in Hobj, Hlog.
  assert (Hvalues : insert_values h id (VStr name) data l VUndef
                    = [ fst (new_id m s); VStr name; VNum (Int 0); VStr "0";
                        VStr "15 minutes"; data; VNull; VNull; VNum (Int 0) ]).
  { unfold insert_values, derive_startIn, derive_singletonSeconds.
    rewrite !Hget. rewrite Hid. unfold new_id. cbn [set_objects world].
    by destruct (uuid _ _). }
  rewrite Hvalues in Hlog.
  rewrite Hobj, Hget. cbn [truthy negb].
  destruct r as [e|result]; [|destruct (strict_equal _ _)]; by eexists _, _.
Qed.

End PublishOutcomes.


Section Dispatch.
Context {H : Host}.

(** X25: for a job that fetch returned, the completion callback
    () => self.complete(job.id) runs the complete plan with the id of the
    row as the fetch plan returned it (attaching the name does not touch
    it): fetch then done() is the fetch plan with the name followed by the
    complete plan with that id, and if it resolves, it resolves with that
    id. *)
Theorem fetched_job_completes_by_row_id (m : Manager) (name : value)
    (s s1 : state) (job : gmap string value) :
  fetch m name s = (Resolved (Some job), s1) →
  ∃ result row rest,
    exec (nextJobCommand m) (OneParam name) s = (inr result, s1)
    ∧ rows result = row :: rest
    ∧ job !! "name" = Some name
    ∧ job !! "id" = row !! "id"
    ∧ sql_log (snd (completion_thunk m job s1))
      = (sql_log s
         ++ [ (nextJobCommand m, OneParam name);
              (completeJobCommand m, Params [default VUndef (row !! "id")]) ])%list
    ∧ (∀ v, fst (completion_thunk m job s1) = Resolved v →
         v = default VUndef (row !! "id")).
Proof.
  unfold fetch.
  destruct (exec (nextJobCommand m) (OneParam name) s) as [[e|result] s0] eqn:Hexec;
    [done|].
  destruct (rows result) as [|row rest] eqn:Hrows; [done|].
  cbn. intros [= <- <-].
  exists result, row, rest. split; [done|]. split; [done|].
  split; [apply lookup_insert_eq|].
  assert (Hid : (<["name" := name]> row) !! "id" = row !! "id")
    by by apply lookup_insert_ne.
  split; [done|].
  unfold completion_thunk, complete. rewrite Hid.
  apply exec_lifecycle in Hexec as (_ & _ & Hlog).
  destruct (exec (completeJobCommand m) _ s0) as [[e|result'] s2] eqn:Hexec2.
  - apply exec_lifecycle in Hexec2 as (_ & _ & Hlog2).
    cbn. rewrite Hlog2, Hlog, <- app_assoc. done.
  - apply exec_lifecycle in Hexec2 as (_ & _ & Hlog2).
    destruct (strict_equal _ _); cbn; rewrite Hlog2, Hlog, <- app_assoc;
      split; try done. by intros v [= <-].
Qed.

End Dispatch.


Section MonitorFurther.
Context {H : Host}.

(** What a sweep that the database answers leaves behind. *)
Lemma expire_answered (m : Manager) (s s1 : state) (result : sqlResult) :
  exec (expireJobCommand m) NoParams s = (inr result, s1) →
  expire m s
  = (if truthy (rowCount result) then deliver (ev_expired (rowCount result)) else None,
     State (objects s) (world s1)
           (sql_log s ++ [(expireJobCommand m, NoParams)])
           (workers s) (stopped s) (expireTimer s) (pool s) (armed s) (next_timer s)
           (emitted s ++ if truthy (rowCount result)
                         then [ev_expired (rowCount result)] else [])).
Proof.
  unfold expire, exec.
  destruct (executeSql _ _ _ _) as [r w]. intros [= -> <-].
  unfold expire_settled, emit. cbn.
  destruct (truthy (rowCount result)); [done|]. by rewrite app_nil_r.
Qed.

(** X11: when the first sweep is answered (and the 'expired' listeners
    return), monitor() resolves after exactly one call of the expire plan
    without parameters, emits 'expired' with the row count when that count
    is truthy and nothing otherwise, and arms one timer with the configured
    expireCheckInterval, unless the Manager is stopped, in which case it
    arms none. *)
Theorem monitor_starts_the_loop (m : Manager) (s s1 : state) (result : sqlResult) :
  exec (expireJobCommand m) NoParams s = (inr result, s1) →
  (truthy (rowCount result) = true → deliver (ev_expired (rowCount result)) = None) →
  fst (monitor m s) = Resolved tt
  ∧ sql_log (snd (monitor m s)) = (sql_log s ++ [(expireJobCommand m, NoParams)])%list
  ∧ emitted (snd (monitor m s))
    = (emitted s ++ if truthy (rowCount result)
                    then [ev_expired (rowCount result)] else [])%list
  ∧ (stopped s = false →
      expireTimer (snd (monitor m s)) = Some (next_timer s)
      ∧ armed (snd (monitor m s))
        = <[next_timer s := cfg_expireCheckInterval (config m)]> (armed s))
  ∧ (stopped s = true →
      expireTimer (snd (monitor m s)) = expireTimer s
      ∧ armed (snd (monitor m s)) = armed s).
Proof.
  intros Hexec Hlisten. unfold monitor. rewrite (expire_answered _ _ _ _ Hexec).
  assert (Hnone : (if truthy (rowCount result)
                   then deliver (ev_expired (rowCount result)) else None) = None).
  { destruct (truthy (rowCount result)); [by apply Hlisten|done]. }
  rewrite Hnone. cbn [fst snd]. unfold init. cbn [stopped].
  destruct (stopped s); cbn; repeat split; done.
Qed.

(** X12: a tick whose sweep is answered calls the expire plan once,
    emits 'expired' with the row count when that count is truthy, and
    replaces the timer that fired by a new one with the configured
    expireCheckInterval, unless the Manager is stopped. *)
Theorem tick_sweeps_and_rearms (m : Manager) (handle : nat) (s s1 : state)
    (result : sqlResult) :
  exec (expireJobCommand m) NoParams (timer_fires handle s) = (inr result, s1) →
  (truthy (rowCount result) = true → deliver (ev_expired (rowCount result)) = None) →
  sql_log (check m handle s) = (sql_log s ++ [(expireJobCommand m, NoParams)])%list
  ∧ emitted (check m handle s)
    = (emitted s ++ if truthy (rowCount result)
                    then [ev_expired (rowCount result)] else [])%list
  ∧ (stopped s = false →
      expireTimer (check m handle s) = Some (next_timer s)
      ∧ armed (check m handle s)
        = <[next_timer s := cfg_expireCheckInterval (config m)]>
            (delete handle (armed s)))
  ∧ (stopped s = true → armed (check m handle s) = delete handle (armed s)).
Proof.
  intros Hexec Hlisten. unfold check. rewrite (expire_answered _ _ _ _ Hexec).
  assert (Hnone : (if truthy (rowCount result)
                   then deliver (ev_expired (rowCount result)) else None) = None).
  { destruct (truthy (rowCount result)); [by apply Hlisten|done]. }
  rewrite Hnone. unfold init. cbn [stopped timer_fires clearTimeout].
  destruct (stopped s); cbn; repeat split; done.
Qed.

(** X13: when an 'expired' listener throws, the initial sweep rejects
    monitor() with that error and arms no timer, while a tick emits the
    error as an 'error' event after the 'expired' one and arms the timer
    again. *)
Theorem expired_listener_throws (m : Manager) (s : state) (result : sqlResult)
    (e : error) :
  truthy (rowCount result) = true →
  deliver (ev_expired (rowCount result)) = Some e →
  (∀ s1, exec (expireJobCommand m) NoParams s = (inr result, s1) →
     fst (monitor m s) = Rejected e
     ∧ armed (snd (monitor m s)) = armed s
     ∧ emitted (snd (monitor m s)) = (emitted s ++ [ev_expired (rowCount result)])%list)
  ∧ (∀ handle s1,
       exec (expireJobCommand m) NoParams (timer_fires handle s) = (inr result, s1) →
       deliver (ev_error e) = None →
       emitted (check m handle s)
       = (emitted s ++ [ev_expired (rowCount result); ev_error e])%list
       ∧ (stopped s = false →
           armed (check m handle s)
           = <[next_timer s := cfg_expireCheckInterval (config m)]>
               (delete handle (armed s)))).
Proof.
  intros Htruthy Hthrows. split.
  - intros s1 Hexec. unfold monitor. rewrite (expire_answered _ _ _ _ Hexec).
    rewrite Htruthy, Hthrows. done.
  - intros handle s1 Hexec Herror. unfold check.
    rewrite (expire_answered _ _ _ _ Hexec).
    rewrite Htruthy, Hthrows. unfold emit. rewrite Herror.
    unfold init. cbn [stopped timer_fires clearTimeout].
    destruct (stopped s); cbn; rewrite <- ?app_assoc; done.
Qed.

(** X14: when emitting the 'error' event itself throws (no 'error'
    listener is attached), the tick arms no timer although the Manager is
    not stopped: the monitor loop has ended. *)
Theorem error_listener_throws_ends_loop (m : Manager) (handle : nat)
    (s s1 : state) (e e' : error) :
  expire m (timer_fires handle s) = (Some e, s1) →
  deliver (ev_error e) = Some e' →
  armed (check m handle s) = delete handle (armed s)
  ∧ expireTimer (check m handle s) = expireTimer s
  ∧ next_timer (check m handle s) = next_timer s
  ∧ stopped (check m handle s) = stopped s
  ∧ (one_timer s → is_Some (armed s !! handle) → armed (check m handle s) = ∅).
Proof.
  intros Hexpire Hthrows.
  pose proof (expire_frame _ _ _ _ Hexpire) as (Hstopped & Harmed & Hnext & Htimer & _).
  unfold check. rewrite Hexpire. unfold emit. rewrite Hthrows.
  cbn [armed expireTimer next_timer stopped].
  rewrite Harmed, Htimer, Hnext, Hstopped. cbn.
  repeat split; try done.
  intros Hone Hfires. apply map_eq. intros k. rewrite lookup_empty.
  destruct (decide (k = handle)) as [->|Hk]; [apply lookup_delete_eq|].
  rewrite lookup_delete_ne by done.
  destruct (armed s !! k) eqn:Hk'; [|done].
  pose proof (Hone k (mk_is_Some _ _ Hk')). pose proof (Hone handle Hfires). congruence.
Qed.

Lemma init_timers (m : Manager) (s : state) :
  timers_at_interval m s → timers_at_interval m (init m s).
Proof.
  intros Hat. unfold init. destruct (stopped s); [done|].
  intros handle delay. cbn.
  destruct (decide (next_timer s = handle)) as [->|Hne].
  - rewrite lookup_insert_eq. by intros [= <-].
  - rewrite lookup_insert_ne by done. apply Hat.
Qed.

Lemma expire_settled_frame (r : error + sqlResult) (s : state) :
  armed (snd (expire_settled r s)) = armed s
  ∧ stopped (snd (expire_settled r s)) = stopped s
  ∧ next_timer (snd (expire_settled r s)) = next_timer s.
Proof.
  unfold expire_settled, emit.
  destruct r as [e|result]; [done|]. by destruct (truthy _).
Qed.

Lemma step_timers (m : Manager) (t : transition) (s : state) :
  timers_at_interval m s → timers_at_interval m (step m t s).
Proof.
  intros Hat. destruct t as [r|handle|r| |]; cbn [step].
  - unfold monitor_settled.
    pose proof (expire_settled_frame r s) as (Ha & _).
    destruct (expire_settled r s) as [[e|] s1]; cbn [snd] in *.
    + intros handle delay. rewrite Ha. apply Hat.
    + apply init_timers. intros handle delay. rewrite Ha. apply Hat.
  - intros k delay. cbn. intros Hk. apply lookup_delete_Some in Hk as [_ Hk].
    by eapply Hat.
  - unfold check_settled.
    pose proof (expire_settled_frame r s) as (Ha & _).
    destruct (expire_settled r s) as [[e|] s1]; cbn [snd] in *.
    + unfold emit. destruct (deliver _).
      * intros handle delay. cbn. rewrite Ha. apply Hat.
      * apply init_timers. intros handle delay. cbn. rewrite Ha. apply Hat.
    + apply init_timers. intros handle delay. rewrite Ha. apply Hat.
  - done.
  - unfold stop_settled, set_stopped. cbn.
    destruct (expireTimer s); [|done].
    intros k delay. cbn. intros Hk. apply lookup_delete_Some in Hk as [_ Hk].
    by eapply Hat.
Qed.

(** X15: whatever has run since the Manager was created, every armed
    timer was set with the configured expireCheckInterval. *)
Theorem timers_keep_the_interval (m : Manager) (w : World) (h : heap)
    (ts : list transition) :
  timers_at_interval m (run m ts (initial w h)).
Proof.
  assert (Hrun : ∀ s, timers_at_interval m s → timers_at_interval m (run m ts s)).
  { induction ts as [|t ts IH]; intros s Hs; [done|].
    cbn. apply IH. by apply step_timers. }
  apply Hrun. intros handle delay Hk.
  change ((∅ : gmap nat value) !! handle = Some delay) in Hk.
  by rewrite lookup_empty in Hk.
Qed.

Lemma step_no_new_timer (m : Manager) (t : transition) (s : state) :
  stopped s = true →
  stopped (step m t s) = true ∧ no_new_timer s (step m t s).
Proof.
  intros Hstopped. destruct t as [r|handle|r| |]; cbn [step].
  - unfold monitor_settled.
    pose proof (expire_settled_frame r s) as (Ha & Hs & _).
    destruct (expire_settled r s) as [[e|] s1]; cbn [snd] in *.
    + split; [congruence|]. intros k d. by rewrite Ha.
    + rewrite init_stopped by congruence.
      split; [congruence|]. intros k d. by rewrite Ha.
  - split; [done|]. intros k d. cbn. intros Hk.
    by apply lookup_delete_Some in Hk as [_ Hk].
  - unfold check_settled.
    pose proof (expire_settled_frame r s) as (Ha & Hs & _).
    destruct (expire_settled r s) as [[e|] s1]; cbn [snd] in *.
    + unfold emit. destruct (deliver _).
      * split; [cbn; congruence|]. intros k d. cbn. by rewrite Ha.
      * rewrite init_stopped by (cbn; congruence).
        split; [cbn; congruence|]. intros k d. cbn. by rewrite Ha.
    + rewrite init_stopped by congruence.
      split; [congruence|]. intros k d. by rewrite Ha.
  - split; [done|]. by intros k d.
  - unfold stop_settled, set_stopped, clearTimeout. cbn [expireTimer].
    destruct (expireTimer s); (split; [done|]); intros k d; cbn [armed]; [|done].
    intros Hk. by apply lookup_delete_Some in Hk as [_ Hk].
Qed.

(** X16: once the stopped flag is set nothing resets it, and nothing
    that runs afterwards arms a timer: timers can only go away. *)
Theorem stopped_manager_arms_nothing (m : Manager) (ts : list transition)
    (s : state) :
  stopped s = true →
  stopped (run m ts s) = true ∧ no_new_timer s (run m ts s).
Proof.
  revert s. induction ts as [|t ts IH]; intros s Hstopped.
  - split; [done|]. by intros k d.
  - cbn. destruct (step_no_new_timer m t s Hstopped) as [Hs Hno].
    destruct (IH _ Hs) as [Hs' Hno'].
    split; [done|]. intros k d Hk. by apply Hno, Hno'.
Qed.

End MonitorFurther.


Section WorkersFurther.
Context {H : Host}.

(** Stopping the workers at the indices [ids] stops those and no other. *)
Lemma stop_all_lookup (ids : list nat) :
  ∀ (p : list worker) (i : nat),
    foldl (fun p i => alter Worker_stop i p) p ids !! i
    = if decide (i ∈ ids) then Worker_stop <$> p !! i else p !! i.
Proof.
  induction ids as [|j ids IH]; intros p i; cbn [foldl].
  - destruct (decide (i ∈ [])) as [Hin|_]; [by apply elem_of_nil in Hin|done].
  - rewrite IH.
    destruct (decide (i = j)) as [->|Hij].
    + rewrite list_lookup_alter_eq.
      destruct (decide (j ∈ j :: ids)) as [_|Hn];
        [|exfalso; apply Hn, elem_of_cons; by left].
      destruct (decide (j ∈ ids)); [|reflexivity].
      by destruct (p !! j).
    + rewrite list_lookup_alter_ne by done.
      destruct (decide (i ∈ ids)) as [Hin|Hout];
        destruct (decide (i ∈ j :: ids)) as [Hin'|Hout'].
      * reflexivity.
      * exfalso. apply Hout', elem_of_cons. by right.
      * exfalso. apply elem_of_cons in Hin' as [Heq|Hin']; [by apply Hij|by apply Hout].
      * reflexivity.
Qed.

Lemma stop_all_length (ids : list nat) :
  ∀ p : list worker, length (foldl (fun p i => alter Worker_stop i p) p ids) = length p.
Proof.
  induction ids as [|j ids IH]; intros p; cbn [foldl]; [done|].
  by rewrite IH, length_alter.
Qed.

(** X17: close() stops exactly the registered workers and leaves every
    other worker as it was, empties the registry, is idempotent, and
    touches neither the stopped flag nor the expiration timer: the monitor
    goes on after close(). *)
Theorem close_stops_the_registered (s : state) :
  workers (close s) = []
  ∧ length (pool (close s)) = length (pool s)
  ∧ (∀ i, pool (close s) !! i
          = if decide (i ∈ workers s) then Worker_stop <$> pool s !! i
            else pool s !! i)
  ∧ same_lifecycle (close s) (close (close s))
  ∧ close (close s) = close s
  ∧ stopped (close s) = stopped s
  ∧ armed (close s) = armed s
  ∧ expireTimer (close s) = expireTimer s.
Proof.
  unfold close.
  cbn [workers pool stopped armed expireTimer objects world sql_log next_timer emitted foldl].
  split; [done|]. split; [apply stop_all_length|].
  split; [intros i; apply stop_all_lookup|].
  by repeat split.
Qed.

(** The loop of [register] only appends started workers, whatever the team
    size and the fuel. *)
Lemma team_loop_appends (fuel : nat) :
  ∀ (w : Z) (teamSize : value) (c : workerConfig) (s s' : state),
    team_loop fuel w teamSize c s = Some s' →
    ∃ k,
      pool s' = (pool s ++ replicate k (Worker c true false))%list
      ∧ workers s' = (workers s ++ seq (length (pool s)) k)%list
      ∧ objects s' = objects s ∧ sql_log s' = sql_log s ∧ world s' = world s
      ∧ stopped s' = stopped s ∧ expireTimer s' = expireTimer s
      ∧ armed s' = armed s ∧ next_timer s' = next_timer s
      ∧ emitted s' = emitted s.
Proof.
  induction fuel as [|fuel IH]; intros w teamSize c s s'; cbn [team_loop].
  - destruct (less_than _ _ _); [done|]. intros [= <-].
    exists 0%nat. cbn. by rewrite !app_nil_r.
  - destruct (less_than _ _ _).
    + intros Hloop. destruct (IH _ _ _ _ _ Hloop) as (k & Hpool & Hworkers & Hrest).
      exists (S k). cbn [add_worker pool workers objects sql_log world stopped
                       expireTimer armed next_timer emitted] in *.
      rewrite Hpool, Hworkers. rewrite length_app, <- !app_assoc. cbn.
      rewrite Nat.add_1_r. done.
    + intros [= <-]. exists 0%nat. cbn. by rewrite !app_nil_r.
Qed.

Lemma subscribe_appends (fuel : nat) (m : Manager) (name : value)
    (args : list value) (s s' : state) (out : outcome unit) :
  subscribe fuel m name args s = Some (out, s') →
  ∃ k c,
    wc_fetcher c = onFetch name
    ∧ pool s' = (pool s ++ replicate k (Worker c true false))%list
    ∧ workers s' = (workers s ++ seq (length (pool s)) k)%list
    ∧ (∀ e, out = Rejected e → k = 0%nat)
    ∧ sql_log s' = sql_log s
    ∧ stopped s' = stopped s ∧ expireTimer s' = expireTimer s
    ∧ armed s' = armed s ∧ emitted s' = emitted s.
Proof.
  unfold subscribe.
  set (c0 := WorkerConfig name (onFetch name) (onJob VUndef) onError VUndef).
  destruct (subscribe_getArgs m name args (objects s)) as [[e|[options callback]] h].
  { intros [= <- <-]. exists 0%nat, c0. cbn. by rewrite !app_nil_r. }
  unfold register.
  destruct (get_value _ options "newJobCheckInterval") as [e|interval].
  { intros [= <- <-]. exists 0%nat, c0. cbn. by rewrite !app_nil_r. }
  destruct (get_value _ options "teamSize") as [e|teamSize].
  { intros [= <- <-]. exists 0%nat, c0. cbn. by rewrite !app_nil_r. }
  destruct (team_loop _ _ _ _ _) as [s1|] eqn:Hloop; [|done].
  intros [= <- <-].
  destruct (team_loop_appends _ _ _ _ _ _ Hloop) as (k & Hpool & Hworkers & _ & Hrest).
  exists k. eexists. split; [|split; [exact Hpool|]]; [done|].
  split; [exact Hworkers|].
  split; [done|]. cbn in Hrest.
  destruct Hrest as (-> & _ & -> & -> & -> & _ & ->). done.
Qed.




End WorkersFurther.


Section SubscribeFurther.
Context {H : Host}.

(** [subscribe.getArgs] from the point where the arguments are unpacked:
    the callback check, the options check, the defaults. *)
Lemma subscribe_checks (m : Manager) (options callback : value) (h : heap) :
  (if negb (String.eqb (typeof callback) "function")
   then (inl (AssertionError "expected a callback function"), h)
   else if truthy options && negb (String.eqb (typeof options) "object")
   then (inl (AssertionError "expected config to be an object"), h)
   else
     let '(options, h) := or_fresh_object options h in
     match options with
     | VObj l => subscribe_defaults m l callback h
     | _ => (inl TypeError, h)
     end)
  = if negb (String.eqb (typeof callback) "function")
    then (inl (AssertionError "expected a callback function"), h)
    else match options with
         | VObj l => subscribe_defaults m l callback h
         | _ =>
             if truthy options
             then (inl (AssertionError "expected config to be an object"), h)
             else subscribe_defaults m (fst (alloc ∅ h)) callback (snd (alloc ∅ h))
         end.
Proof.
  destruct (negb _); [done|].
  unfold or_fresh_object.
  destruct options as [| |[]|[|z]|str|f|l]; cbn; try done.
  - by destruct (Z.eqb z 0).
  - by destruct str.
Qed.

Lemma subscribe_defaults_plain (m : Manager) (l : loc) (callback : value) (h : heap) :
  has h l "newJobCheckInterval" || has h l "newJobCheckIntervalSeconds" = false →
  subscribe_defaults m l callback h
  = (inr (VObj l, callback),
     put (put h l "teamSize" (or_else (get h l "teamSize") (VNum (Int 1))))
         l "newJobCheckInterval" (cfg_newJobCheckInterval (config m))).
Proof.
  intros Hplain. unfold subscribe_defaults.
  rewrite !has_put_ne by done. by rewrite Hplain.
Qed.

Lemma subscribe_defaults_rejected (m : Manager) (l : loc) (callback : value)
    (h h' : heap) (e : error) :
  subscribe_defaults m l callback h = (inl e, h') →
  ∃ h0, applyNewJobCheckInterval (VObj l) h0 = (inl e, h').
Proof.
  unfold subscribe_defaults. destruct (has _ _ _ || has _ _ _); [|done].
  destruct (applyNewJobCheckInterval _ _) as [[e0|options'] h1] eqn:Happly; [|done].
  intros [= <- <-]. by eexists.
Qed.

Lemma alloc_plain (h : heap) :
  has (snd (alloc ∅ h)) (fst (alloc ∅ h)) "newJobCheckInterval"
  || has (snd (alloc ∅ h)) (fst (alloc ∅ h)) "newJobCheckIntervalSeconds" = false.
Proof. by rewrite !has_alloc. Qed.

(** X20: [subscribe.getArgs] lets a call through only with a truthy
    name and either one argument, a function, or two arguments, options
    that are absent or an object followed by a function; and it lets every
    such call through when the options name no polling interval. *)
Theorem subscribe_getArgs_accepts (m : Manager) (name : value)
    (args : list value) (h : heap) :
  ((∃ r h', subscribe_getArgs m name args h = (inr r, h')) →
     truthy name = true
     ∧ ((∃ callback, args = [callback] ∧ typeof callback = "function")
        ∨ (∃ options callback, args = [options; callback]
             ∧ typeof callback = "function" ∧ options_ok options)))
  ∧ (truthy name = true →
     (∃ callback, args = [callback] ∧ typeof callback = "function")
     ∨ (∃ options callback, args = [options; callback]
          ∧ typeof callback = "function" ∧ options_ok options) →
     requested_interval args h = false →
     ∃ r h', subscribe_getArgs m name args h = (inr r, h')).
Proof.
  unfold subscribe_getArgs. split.
  - intros (r & h' & Hr). destruct (truthy name); [|done].
    split; [done|]. cbn [negb] in Hr.
    destruct args as [|a0 [|a1 [|a2 rest]]]; cbn [length Nat.eqb arg nth] in Hr.
    + done.
    + left. exists a0. split; [done|].
      destruct (alloc ∅ h) as [l h1].
      destruct (String.eqb (typeof a0) "function") eqn:Hfn; [|done].
      by apply String.eqb_eq.
    + right. exists a0, a1. split; [done|].
      destruct (or_fresh_object a0 h) as [o h1] eqn:Hfresh.
      destruct (String.eqb (typeof a1) "function") eqn:Hfn; [|done].
      split; [by apply String.eqb_eq|].
      unfold options_ok. destruct (truthy a0) eqn:Ha0; [|by left].
      right. rewrite or_fresh_object_truthy in Hfresh by done.
      injection Hfresh as <- <-. cbn [negb] in Hr. rewrite Ha0 in Hr.
      destruct a0; try done. by eexists.
    + done.
  - intros -> Hshape Hplain. cbn [negb].
    destruct Hshape as [(callback & -> & Hfn)|(options & callback & -> & Hfn & Hopt)];
      cbn [length Nat.eqb arg nth].
    + pose proof (alloc_plain h) as Hfresh.
      destruct (alloc ∅ h) as [l h1]. cbn [fst snd] in Hfresh.
      rewrite Hfn. cbn. rewrite subscribe_defaults_plain by done. by eexists _, _.
    + destruct Hopt as [Hfalsy|[l ->]].
      * rewrite or_fresh_object_falsy by done.
        pose proof (alloc_plain h) as Hfresh.
        destruct (alloc ∅ h) as [l h1]. cbn [fst snd] in Hfresh.
        rewrite Hfn. cbn. rewrite subscribe_defaults_plain by done. by eexists _, _.
      * rewrite or_fresh_object_truthy by done.
        rewrite Hfn. cbn. rewrite subscribe_defaults_plain by done. by eexists _, _.
Qed.

(** X21: [subscribe.getArgs] rejects only with one of its three
    assertion errors or with the error Attorney raised: the checks of
    subscribe itself never end in a TypeError. *)
Theorem subscribe_getArgs_rejections (m : Manager) (name : value)
    (args : list value) (h h' : heap) (e : error) :
  subscribe_getArgs m name args h = (inl e, h') →
  e ∈ subscribe_assertions
  ∨ ∃ l h0, applyNewJobCheckInterval (VObj l) h0 = (inl e, h').
Proof.
  unfold subscribe_getArgs, subscribe_assertions.
  destruct (truthy name); cbn [negb]; [|intros [= <- _]; left; set_solver].
  assert (Hchecks : ∀ options callback h1,
    (if negb (String.eqb (typeof callback) "function")
     then (inl (AssertionError "expected a callback function"), h1)
     else if truthy options && negb (String.eqb (typeof options) "object")
     then (inl (AssertionError "expected config to be an object"), h1)
     else
       let '(options, h) := or_fresh_object options h1 in
       match options with
       | VObj l => subscribe_defaults m l callback h
       | _ => (inl TypeError, h)
       end) = (inl e, h') →
    e ∈ [ AssertionError "boss requires all jobs to have a name";
          AssertionError "expected a callback function";
          AssertionError "expected config to be an object" ]
    ∨ ∃ l h0, applyNewJobCheckInterval (VObj l) h0 = (inl e, h')).
  { intros options callback h1. rewrite subscribe_checks.
    destruct (negb _); [intros [= <- _]; left; set_solver|].
    destruct options as [| |b|n|str|f|l];
      try (destruct (truthy _); [intros [= <- _]; left; set_solver|]);
      intros Hd; right; apply subscribe_defaults_rejected in Hd as [h0 Hd];
      by eexists _, _. }
  destruct args as [|a0 [|a1 [|a2 rest]]]; cbn [length Nat.eqb arg nth].
  - apply Hchecks.
  - destruct (alloc ∅ h) as [l h1]. apply Hchecks.
  - destruct (or_fresh_object a0 h) as [o h1]. apply Hchecks.
  - apply Hchecks.
Qed.

(** X22: subscribe(name, options, callback) with options that name no
    polling interval writes into the caller's options object: teamSize
    becomes teamSize || 1 and newJobCheckInterval the configured one;
    nothing else on the heap changes. *)
Theorem subscribe_writes_defaults_into_options (fuel : nat) (m : Manager)
    (name callback : value) (l : loc) (o : gmap string value) (s s' : state)
    (out : outcome unit) :
  truthy name = true → typeof callback = "function" →
  objects s !! l = Some o →
  o !! "newJobCheckInterval" = None → o !! "newJobCheckIntervalSeconds" = None →
  subscribe fuel m name [VObj l; callback] s = Some (out, s') →
  out = Resolved tt
  ∧ objects s'
    = <[l := <["newJobCheckInterval" := cfg_newJobCheckInterval (config m)]>
               (<["teamSize" := or_else (default VUndef (o !! "teamSize"))
                                        (VNum (Int 1))]> o)]>
        (objects s).
Proof.
  intros Hname Hfn Ho Hms Hsec.
  assert (Hplain : has (objects s) l "newJobCheckInterval"
                   || has (objects s) l "newJobCheckIntervalSeconds" = false).
  { unfold has. rewrite Ho. cbn. by rewrite Hms, Hsec. }
  unfold subscribe, subscribe_getArgs. rewrite Hname.
  cbn [negb length Nat.eqb arg nth].
  rewrite or_fresh_object_truthy by done. rewrite Hfn. cbn.
  rewrite subscribe_defaults_plain by done.
  unfold register. cbn [get_value set_objects objects].
  destruct (team_loop _ _ _ _ _) as [s1|] eqn:Hloop; [|done].
  intros [= <- <-]. split; [done|].
  destruct (team_loop_appends _ _ _ _ _ _ Hloop) as (k & _ & _ & -> & _).
  cbn [objects]. unfold put, get. rewrite Ho. cbn.
  rewrite lookup_insert_eq. cbn. by rewrite insert_insert_eq.
Qed.

(** X23: when the normalized teamSize is not a positive number (zero or
    negative, or not a number at all), subscribe resolves without
    constructing any worker. *)
Theorem subscribe_without_a_team (fuel : nat) (m : Manager) (name : value)
    (args : list value) (s : state) (l : loc) (callback : value) (h : heap) :
  subscribe_getArgs m name args (objects s) = (inr (VObj l, callback), h) →
  match ToNumber StringToNumber (get h l "teamSize") with
  | NaN => True
  | Int n => (n ≤ 0)%Z
  end →
  subscribe fuel m name args s = Some (Resolved tt, set_objects h s).
Proof.
  intros Hargs Hsize. unfold subscribe. rewrite Hargs.
  unfold register. cbn [get_value set_objects objects].
  assert (Hstop : less_than StringToNumber 0 (get h l "teamSize") = false).
  { unfold less_than. destruct (ToNumber _ _); [done|]. by apply Z.ltb_ge. }
  destruct fuel; cbn [team_loop]; by rewrite Hstop.
Qed.

(** X24: after subscribe, stop() leaves the registry empty and every
    worker the subscription added stopped. *)
Theorem stop_stops_the_subscribed (fuel : nat) (m : Manager) (name : value)
    (args : list value) (s s' : state) (out : outcome unit) :
  subscribe fuel m name args s = Some (out, s') →
  workers (stop s') = []
  ∧ ∀ i w, (length (pool s) ≤ i)%nat → pool s' !! i = Some w →
      pool (stop s') !! i = Some (Worker (w_config w) true true).
Proof.
  intros Hsub.
  destruct (subscribe_appends _ _ _ _ _ _ _ Hsub)
    as (k & c & _ & Hpool & Hworkers & _).
  rewrite stop_unfold. cbn [workers pool]. split; [done|].
  intros i w Hi Hw. rewrite stop_all_lookup.
  assert (Hlt : (i < length (pool s) + k)%nat).
  { apply lookup_lt_Some in Hw. rewrite Hpool in Hw.
    by rewrite length_app, length_replicate in Hw. }
  destruct (decide (i ∈ workers s')) as [_|Hout].
  - rewrite Hw. cbn. rewrite Hpool in Hw. rewrite lookup_app_r in Hw by done.
    by apply lookup_replicate in Hw as [-> _].
  - exfalso. apply Hout. rewrite Hworkers. apply elem_of_app. right.
    apply elem_of_seq. lia.
Qed.

End SubscribeFurther.

(** ** Runs of the further examples *)

Lemma publish_getArgs_accepts_witness :
  ∃ r h', publish_getArgs tick_args (throttled_heap false) = (inr r, h').
Proof.
  apply (publish_getArgs_accepts tick_args (throttled_heap false)).
  left. exists "tick".
  split; [reflexivity|]. split; [discriminate|]. split; [discriminate|].
  right. exists 0%nat. reflexivity.
Defined.


Lemma publish_getArgs_rejections_witness :
  AssertionError "publish object API only accepts 1 argument" ∈ publish_assertions.
Proof.
  exact (publish_getArgs_rejections [VObj 1%nat; VNull] (throttled_heap true)
           (throttled_heap true) _ eq_refl).
Defined.


Lemma singletonSeconds_null_or_positive_witness : 0 < 60.
Proof.
  exact (proj2 (proj2 (proj2
           (singletonSeconds_null_or_positive (H := scripted) (throttled_heap true) 0%nat)))
           60 eq_refl).
Defined.

Lemma publish_decided_by_last_insert_witness :
  decided_by_insert (H := scripted) boss (Resolved (VStr "job-0"))
    (state_after (publish (H := scripted) 1 boss tick_args
                    (scripted_state [one_row] (throttled_heap false)))
       (scripted_state [one_row] (throttled_heap false))).
Proof.
  destruct (publish_decided_by_last_insert (H := scripted) 1 boss tick_args
              (scripted_state [one_row] (throttled_heap false))
              (state_after (publish (H := scripted) 1 boss tick_args
                              (scripted_state [one_row] (throttled_heap false)))
                 (scripted_state [one_row] (throttled_heap false)))
              (Resolved (VStr "job-0")) eq_refl)
    as [(e & h & _ & Hout & _)|[Hdecided _]].
  - discriminate Hout.
  - exact Hdecided.
Defined.

Lemma store_operations_keep_lifecycle_witness :
  same_lifecycle (scripted_state [one_row] (throttled_heap false))
    (state_after (publish (H := scripted) 1 boss tick_args
                    (scripted_state [one_row] (throttled_heap false)))
       (scripted_state [one_row] (throttled_heap false))).
Proof.
  exact (proj1 (store_operations_keep_lifecycle (H := scripted) boss
                  (scripted_state [one_row] (throttled_heap false))
                  (state_after (publish (H := scripted) 1 boss tick_args
                                  (scripted_state [one_row] (throttled_heap false)))
                     (scripted_state [one_row] (throttled_heap false))))
           1%nat tick_args (Resolved (VStr "job-0")) eq_refl).
Defined.


Lemma publish_defaults_witness :
  ∃ out s',
    publish (H := scripted) 1 boss [VStr "email"; VNull] (scripted_state [one_row] ∅)
      = Some (out, s')
    ∧ sql_log s'
      = [ (insertJobCommand boss,
           Params [ VStr "job-0"; VStr "email"; VNum (Int 0); VStr "0";
                    VStr "15 minutes"; VNull; VNull; VNull; VNum (Int 0) ]) ].
Proof.
  exact (publish_defaults (H := scripted) 0 boss "email" VNull
           (scripted_state [one_row] ∅) ltac:(discriminate) ltac:(discriminate)).
Defined.

Lemma monitor_starts_the_loop_witness :
  fst (monitor (H := scripted) boss (scripted_state [two_expired] ∅)) = Resolved tt
  ∧ emitted (snd (monitor (H := scripted) boss (scripted_state [two_expired] ∅)))
    = [ev_expired (VNum (Int 2))]
  ∧ armed (snd (monitor (H := scripted) boss (scripted_state [two_expired] ∅)))
    = {[ 0%nat := VNum (Int 60000) ]}.
Proof.
  destruct (monitor_starts_the_loop (H := scripted) boss (scripted_state [two_expired] ∅)
              (snd (exec (H := scripted) (expireJobCommand boss) NoParams
                      (scripted_state [two_expired] ∅)))
              (SqlResult (VNum (Int 2)) []) eq_refl (fun _ => eq_refl))
    as (Hout & _ & Hemitted & Hrun & _).
  destruct (Hrun eq_refl) as [_ Harmed].
  split; [exact Hout|]. split; [exact Hemitted|exact Harmed].
Defined.

Lemma tick_sweeps_and_rearms_witness :
  emitted (check (H := scripted) boss 0%nat sweeping_state) = [ev_expired (VNum (Int 2))]
  ∧ armed (check (H := scripted) boss 0%nat sweeping_state)
    = <[1%nat := VNum (Int 60000)]> (delete 0%nat (armed sweeping_state)).
Proof.
  destruct (tick_sweeps_and_rearms (H := scripted) boss 0%nat sweeping_state
              (snd (exec (H := scripted) (expireJobCommand boss) NoParams
                      (timer_fires 0%nat sweeping_state)))
              (SqlResult (VNum (Int 2)) []) eq_refl (fun _ => eq_refl))
    as (_ & Hemitted & Hrun & _).
  destruct (Hrun eq_refl) as [_ Harmed].
  split; [exact Hemitted|exact Harmed].
Defined.

Lemma expired_listener_throws_witness :
  fst (monitor (H := fragile) boss (@initial fragile ([two_expired], 0%nat) ∅))
    = Rejected listener_failed
  ∧ emitted (check (H := fragile) boss 0%nat fragile_state)
    = [ev_expired (VNum (Int 2)); ev_error listener_failed].
Proof.
  split.
  - destruct (expired_listener_throws (H := fragile) boss
                (@initial fragile ([two_expired], 0%nat) ∅)
                (SqlResult (VNum (Int 2)) []) listener_failed eq_refl eq_refl)
      as [Hstart _].
    exact (proj1 (Hstart _ eq_refl)).
  - destruct (expired_listener_throws (H := fragile) boss fragile_state
                (SqlResult (VNum (Int 2)) []) listener_failed eq_refl eq_refl)
      as [_ Htick].
    exact (proj1 (Htick 0%nat _ eq_refl eq_refl)).
Defined.

Lemma error_listener_throws_ends_loop_witness :
  armed (check (H := deaf) boss 0%nat deaf_state) = ∅
  ∧ stopped (check (H := deaf) boss 0%nat deaf_state) = false.
Proof.
  destruct (error_listener_throws_ends_loop (H := deaf) boss 0%nat deaf_state
              (snd (expire (H := deaf) boss (timer_fires 0%nat deaf_state)))
              connection_lost connection_lost eq_refl eq_refl)
    as (_ & _ & _ & Hstopped & Hempty).
  split; [|exact Hstopped].
  apply Hempty.
  - exact (one_timer_monitor (H := deaf) boss
             (@initial deaf ([no_row; inl connection_lost], 0%nat) ∅) eq_refl).
  - exact (mk_is_Some _ _ eq_refl).
Defined.

Lemma stopped_manager_arms_nothing_witness :
  stopped (run (H := scripted) boss
             [t_monitor_settled no_row; t_timer_fires 0%nat; t_check_settled no_row]
             (stop armed_state)) = true.
Proof.
  exact (proj1 (stopped_manager_arms_nothing (H := scripted) boss
                  [t_monitor_settled no_row; t_timer_fires 0%nat; t_check_settled no_row]
                  (stop armed_state) eq_refl)).
Defined.



Lemma subscribe_getArgs_accepts_witness :
  ∃ r h', subscribe_getArgs (H := scripted) boss (VStr "work") team_args team_heap
          = (inr r, h').
Proof.
  apply (proj2 (subscribe_getArgs_accepts (H := scripted) boss (VStr "work")
                  team_args team_heap)).
  - reflexivity.
  - right. exists (VObj 0%nat), (VFun "job => {}").
    split; [reflexivity|]. split; [reflexivity|]. right. by exists 0%nat.
  - reflexivity.
Defined.

Lemma subscribe_getArgs_rejections_witness :
  AssertionError "expected a callback function" ∈ subscribe_assertions
  ∨ ∃ l h0, attorney (VObj l) h0
            = (inl (AssertionError "expected a callback function"), team_heap).
Proof.
  exact (subscribe_getArgs_rejections (H := scripted) boss (VStr "work") []
           team_heap team_heap _ eq_refl).
Defined.

Lemma subscribe_writes_defaults_into_options_witness :
  objects (state_after (subscribe (H := scripted) 3 boss (VStr "work")
                          [VObj 0%nat; VFun "job => {}"]
                          (scripted_state [] {[ 0%nat := ∅ ]}))
             (scripted_state [] {[ 0%nat := ∅ ]}))
  = <[0%nat := <["newJobCheckInterval" := VNum (Int 1000)]>
                 (<["teamSize" := VNum (Int 1)]> ∅)]> {[ 0%nat := ∅ ]}.
Proof.
  exact (proj2 (subscribe_writes_defaults_into_options (H := scripted) 3 boss
                  (VStr "work") (VFun "job => {}") 0%nat ∅
                  (scripted_state [] {[ 0%nat := ∅ ]})
                  (state_after (subscribe (H := scripted) 3 boss (VStr "work")
                                  [VObj 0%nat; VFun "job => {}"]
                                  (scripted_state [] {[ 0%nat := ∅ ]}))
                     (scripted_state [] {[ 0%nat := ∅ ]}))
                  (Resolved tt) eq_refl eq_refl eq_refl eq_refl eq_refl eq_refl)).
Defined.

Lemma subscribe_without_a_team_witness :
  state_after (subscribe (H := scripted) 0 boss (VStr "work") team_args
                 (scripted_state [] no_team_heap))
    (scripted_state [] no_team_heap)
  = set_objects
      (snd (subscribe_getArgs (H := scripted) boss (VStr "work") team_args no_team_heap))
      (scripted_state [] no_team_heap).
Proof.
  exact (f_equal (fun r => state_after r (scripted_state [] no_team_heap))
           (subscribe_without_a_team (H := scripted) 0 boss (VStr "work") team_args
              (scripted_state [] no_team_heap) 0%nat (VFun "job => {}")
              (snd (subscribe_getArgs (H := scripted) boss (VStr "work") team_args
                      no_team_heap))
              eq_refl ltac:(vm_compute; discriminate))).
Defined.

Lemma stop_stops_the_subscribed_witness :
  workers (stop (state_after (subscribe (H := scripted) 3 boss (VStr "work") team_args
                                (scripted_state [] team_heap))
                   (scripted_state [] team_heap)))
  = [].
Proof.
  exact (proj1 (stop_stops_the_subscribed (H := scripted) 3 boss (VStr "work") team_args
                  (scripted_state [] team_heap)
                  (state_after (subscribe (H := scripted) 3 boss (VStr "work") team_args
                                  (scripted_state [] team_heap))
                     (scripted_state [] team_heap))
                  (Resolved tt) eq_refl)).
Defined.

Lemma fetched_job_completes_by_row_id_witness :
  ∃ result row rest,
    exec (H := scripted) (nextJobCommand boss) (OneParam (VStr "email"))
      (scripted_state [inr (SqlResult (VNum (Int 1)) [echoed_row]); one_row] ∅)
    = (inr result,
       snd (fetch (H := scripted) boss (VStr "email")
              (scripted_state [inr (SqlResult (VNum (Int 1)) [echoed_row]); one_row] ∅)))
    ∧ rows result = row :: rest
    ∧ (<["name" := VStr "email"]> echoed_row) !! "id" = row !! "id".
Proof.
  destruct (fetched_job_completes_by_row_id (H := scripted) boss (VStr "email")
              (scripted_state [inr (SqlResult (VNum (Int 1)) [echoed_row]); one_row] ∅)
              (snd (fetch (H := scripted) boss (VStr "email")
                      (scripted_state [inr (SqlResult (VNum (Int 1)) [echoed_row]); one_row] ∅)))
              (<["name" := VStr "email"]> echoed_row) eq_refl)
    as (result & row & rest & Hexec & Hrows & _ & Hid & _).
  exists result, row, rest. split; [exact Hexec|]. split; [exact Hrows|exact Hid].
Defined.
